(** * DHIS2 to Go.Data case copy: the transformation pipeline of [copyCases]

    A shallow embedding of the functions of the case-copy action
    (outbreak assignment, event enrichment, lab result and case
    classification, sending of the cases), of the loading of the tracked
    entity instances and of the cases, and the properties proved about
    them.

    Conventions of the embedding.
    - A JavaScript object that the code extends with [R.assoc] (a tracked
      entity instance, a case) is a finite map from property names to
      [field]s.  An absent property and a property holding [undefined] read
      the same in JavaScript; the map keeps them apart ([None] and
      [Some FUndefined]) and every read treats them alike.
    - Reference data (organisation units, outbreaks, events, data values,
      data elements) are records: ids, names and values are strings.
    - A call that can raise a [TypeError] returns a [result].
    - The recursion of [findOutbreackForCase] is bounded by a fuel argument
      (the depth of the call stack); running out of fuel is its own outcome.
    - Ramda functions are embedded by what they compute on these types:
      [R.find] is [find], [R.prop] and [R.path] are lookups that yield
      [undefined] ([None]) on [undefined], [R.assoc] is map insertion,
      [R.defaultTo] is [default], [R.allPass] is [forallb], [R.propEq] is
      equality of the property with the given value.
    - Properties inherited from [Object.prototype] are not modelled. *)

From stdpp Require Import gmap strings list relations.

Open Scope string_scope.

(** ** Data model *)

Record DataValue := {
  dataElement : string;
  value : string;
  displayName : option string   (* undefined until the enrichment sets it *)
}.

Record Event := {
  programStage : string;
  dataValues : option (list DataValue)
}.

Record DataElement := {
  de_id : string;
  de_displayName : option string
}.

(* { id, parent: { id } }; a root has no parent *)
Record OrganisationUnit := {
  ou_id : string;
  parent : option string
}.

Record Outbreak := {
  ob_id : string;
  locationIds : list string
}.

(** The values a property of a tracked entity instance holds. *)
Inductive field :=
| FUndefined
| FStr (s : string)
| FEvents (es : list Event)
| FDataValues (dvs : list DataValue).

Abbreviation obj := (gmap string field).

Global Instance DataValue_eq_dec : EqDecision DataValue.
Proof. solve_decision. Defined.
Global Instance Event_eq_dec : EqDecision Event.
Proof. solve_decision. Defined.
Global Instance field_eq_dec : EqDecision field.
Proof. solve_decision. Defined.

(** ** Results of calls that can throw *)

Inductive result (A : Type) :=
| Ok (a : A)
| TypeError.
Arguments Ok {A} a.
Arguments TypeError {A}.

Global Instance result_ret : MRet result := λ A a, Ok a.
Global Instance result_bind : MBind result := λ A B f r,
  match r with
  | Ok a => f a
  | TypeError => TypeError
  end.

(** ** Ramda and JavaScript primitives *)

(* R.propEq(name, v): the property [prop] of the object equals [v] *)
Definition propEq {A} (prop : A → string) (v : string) (o : A) : bool :=
  bool_decide (prop o = v).

(* String(x), the coercion of a property key *)
Definition toKey (v : option field) : string :=
  match v with
  | None | Some FUndefined => "undefined"
  | Some (FStr s) => s
  | Some (FEvents es) => String.concat "," (map (λ _, "[object Object]") es)
  | Some (FDataValues dvs) => String.concat "," (map (λ _, "[object Object]") dvs)
  end.

(* R.reduceBy((acc, el) => R.append(el, acc), [], keyFn), also R.groupBy(keyFn) *)
Definition reduceBy {A} (keyFn : A → string) (l : list A) : gmap string (list A) :=
  foldl (λ acc el, <[keyFn el := (default [] (acc !! keyFn el) ++ [el])%list]> acc) ∅ l.

(* x.length > 0 *)
Definition length_gt_0 (v : option field) : result bool :=
  match v with
  | Some (FDataValues dvs) => Ok (bool_decide (dvs ≠ []))
  | Some (FEvents es) => Ok (bool_decide (es ≠ []))
  | Some (FStr s) => Ok (bool_decide (s ≠ ""))
  | Some FUndefined | None => TypeError
  end.

(* x !== []: the literal is a fresh array, identical to nothing *)
Definition strict_neq_fresh_array (v : option field) : bool := true.

(** ** Outbreak assignment *)

Inductive outcome :=
| Found (id : option string)   (* the value returned; None is undefined *)
| Thrown                       (* TypeError: property of undefined *)
| OutOfFuel.

(* Returns the ids searched for in [orgUnits] together with the outcome. *)
Fixpoint findOutbreackForCase (fuel : nat) (available : gmap string (list Outbreak))
    (orgUnits : list OrganisationUnit) (locationID : string) : list string * outcome :=
  match fuel with
  | 0 => ([], OutOfFuel)
  | S fuel =>
    match available !! locationID with
    | Some bucket => ([], Found (ob_id <$> head bucket))
    | None =>
      match find (propEq ou_id locationID) orgUnits with
      | None => ([locationID], Thrown)
      | Some ou =>
        match parent ou with
        | None => ([locationID], Thrown)
        | Some parentID =>
          let '(searched, r) := findOutbreackForCase fuel available orgUnits parentID in
          (locationID :: searched, r)
        end
      end
    end
  end.

(* R.path(['locationIds', 0]) used as a key *)
Definition firstLocation (o : Outbreak) : string :=
  default "undefined" (head (locationIds o)).

Definition locationsAvaliable (outbreaks : list Outbreak) : gmap string (list Outbreak) :=
  reduceBy firstLocation outbreaks.

(* trackedEntity.orgUnit that is not a string is coerced to one as a key of
   the index, and is the id of no organisation unit *)
Definition assignOutbreak (fuel : nat) (outbreaks : list Outbreak)
    (orgUnits : list OrganisationUnit) (trackedEntity : obj) : option (result obj) :=
  let locationsAvaliable := locationsAvaliable outbreaks in
  let found :=
    match trackedEntity !! "orgUnit" with
    | Some (FStr locationID) =>
      (findOutbreackForCase fuel locationsAvaliable orgUnits locationID).2
    | orgUnit =>
      match locationsAvaliable !! toKey orgUnit with
      | Some bucket => Found (ob_id <$> head bucket)
      | None => Thrown
      end
    end in
  match found with
  | Found (Some id) => Some (Ok (<["outbreak" := FStr id]> trackedEntity))
  | Found None => Some (Ok (<["outbreak" := FUndefined]> trackedEntity))
  | Thrown => Some TypeError
  | OutOfFuel => None
  end.

(** ** Event enrichment *)

Definition findAndTransformEvent (dataElements : list DataElement) (programID : string)
    (events : list Event) : list DataValue :=
  map (λ dataValue,
         {| dataElement := dataElement dataValue;
            value := value dataValue;
            displayName :=
              find (propEq de_id (dataElement dataValue)) dataElements ≫= de_displayName |})
      (default [] (find (propEq programStage programID) events ≫= dataValues)).

(* te.events handed to R.find: a string or a list of data values has no
   member with a programStage, undefined has no properties at all *)
Definition te_events (te : obj) : result (list Event) :=
  match te !! "events" with
  | Some (FEvents es) => Ok es
  | Some (FDataValues _) | Some (FStr _) => Ok []
  | Some FUndefined | None => TypeError
  end.

Definition addEvent (dataElements : list DataElement) (eventName programStageID : string)
    (te : obj) : result obj :=
  events ← te_events te;
  mret (<[eventName := FDataValues (findAndTransformEvent dataElements programStageID events)]> te).

(** ** Lab result and case classification *)

(* R.prop('labResultStage', te) || [], searched by dataElement *)
Definition labResultStage_values (te : obj) : list DataValue :=
  match te !! "labResultStage" with
  | Some (FDataValues dvs) => dvs
  | _ => []
  end.

Definition findDataValueByID (dataValues : list DataValue) (id : string) : option DataValue :=
  find (propEq dataElement id) dataValues.

(* R.propEq('value', value, found || {}) *)
Definition checkDataValue (dataValues : list DataValue) (dataElement value' : string) : bool :=
  bool_decide (value <$> findDataValueByID dataValues dataElement = Some value').

Definition checkDataValuesConditions (conditions : list (string * string)) (te : obj) : bool :=
  forallb (λ '(dataElement, value'),
             checkDataValue (labResultStage_values te) dataElement value')
          conditions.

Definition addLabResult (confirmedTestConditions : list (string * string)) (te : obj) : obj :=
  if strict_neq_fresh_array (te !! "labResultStage")
  then <["labResult" :=
           FStr (if checkDataValuesConditions confirmedTestConditions te
                 then "POSITIVE" else "NEGATIVE")]> te
  else te.

Definition labResult_is (te : obj) (s : string) : bool :=
  bool_decide (te !! "labResult" = Some (FStr s)).

Definition addCaseClassification (te : obj) : result obj :=
  c ← (if labResult_is te "POSITIVE" then Ok "CONFIRMED"
       else
         discarded ← (if labResult_is te "NEGATIVE"
                      then length_gt_0 (te !! "labResultStage") else Ok false);
         if discarded : bool then Ok "NOT_A_CASE_DISCARDED"
         else
           requested ← length_gt_0 (te !! "labRequestStage");
           Ok (if requested : bool then "PROBABLE" else "SUSPECT"));
  mret (<["caseClassification" := FStr c]> te).

(* [config] is handed on to addCaseClassification, which has no parameter *)
Definition addLabInformation (programsIDs : string * string * string * string)
    (dataElements : list DataElement) (confirmedTestConditions : list (string * string))
    (te : obj) : result obj :=
  let '(clinicalExaminationID, labRequestID, labResultsID, symptomsID) := programsIDs in
  te ← addEvent dataElements "clinicalExamination" clinicalExaminationID te;
  te ← addEvent dataElements "labRequestStage" labRequestID te;
  te ← addEvent dataElements "labResultStage" labResultsID te;
  te ← addEvent dataElements "symptoms" symptomsID te;
  addCaseClassification (addLabResult confirmedTestConditions te).

(** ** Sending the cases to Go.Data *)

Inductive call :=
| Login
| ActivateOutbreakForUser (userId outbreak : string)
| CreateOutbreakCase (outbreak : string) (case_ : obj).

(* What the run does with the client, in order: a call is issued, and an
   awaited call settles (its promise resolves or rejects).  The creation
   calls of one outbreak are awaited jointly; the order in which they settle
   is not recorded. *)
Inductive event :=
| Issued (c : call)
| Settled (c : call) (resolved : bool).

(* The Go.Data client: the answer to each call, from the state of the server.
   login resolves with a user, of which only userId is read, or rejects. *)
Record GoData (Server : Type) := {
  login : Server → Server * option string;
  activateOutbreakForUser : string → string → Server → Server * bool;
  createOutbreakCase : string → obj → Server → Server * bool
}.
Arguments login {Server} _ _.
Arguments activateOutbreakForUser {Server} _ _ _ _.
Arguments createOutbreakCase {Server} _ _ _ _.

Section CaseSender.
Context {Server : Type} (godata : GoData Server).

(* allPromises of ../util: whether the joint promise resolves, given
   whether each of the promises does *)
Variable allPromises : list bool → bool.

(* the order in which for..in enumerates the keys of the grouping *)
Variable forIn : gmap string (list obj) → list string.

(* R.map(case_ => godata.createOutbreakCase(outbreak, R.dissoc('outbreak', case_)), cases):
   every call is issued, none is awaited yet *)
Fixpoint createOutbreakCases (outbreak : string) (cases : list obj) (s : Server)
    : list event * list bool * Server :=
  match cases with
  | [] => ([], [], s)
  | case_ :: cases =>
    let c := delete "outbreak" case_ in
    let '(s, ok) := createOutbreakCase godata outbreak c s in
    let '(tr, oks, s) := createOutbreakCases outbreak cases s in
    (Issued (CreateOutbreakCase outbreak c) :: tr, ok :: oks, s)
  end.

(* The for..in loop over the keys that remain.  The boolean tells whether
   the loop ran to its end; a rejected promise, or R.map over the undefined
   cases of a key that the grouping does not have, throws out of it. *)
Fixpoint sendOutbreaks (userId : string) (outbreaks : gmap string (list obj))
    (keys : list string) (s : Server) : list event * bool * Server :=
  match keys with
  | [] => ([], true, s)
  | outbreak :: keys =>
    let activate := ActivateOutbreakForUser userId outbreak in
    let '(s, ok) := activateOutbreakForUser godata userId outbreak s in
    if ok then
      match outbreaks !! outbreak with
      | None => ([Issued activate; Settled activate true], false, s)
      | Some cases =>
        let '(tr1, oks, s) := createOutbreakCases outbreak cases s in
        if allPromises oks then
          let '(tr2, done, s) := sendOutbreaks userId outbreaks keys s in
          (Issued activate :: Settled activate true :: (tr1 ++ tr2)%list, done, s)
        else (Issued activate :: Settled activate true :: tr1, false, s)
      end
    else ([Issued activate; Settled activate false], false, s)
  end.

Definition sendCasesToGoData (cases : list obj) (s : Server)
    : list event * bool * Server :=
  let outbreaks := reduceBy (λ case_, toKey (case_ !! "outbreak")) cases in
  match login godata s with
  | (s, Some userId) =>
    let '(tr, done, s) := sendOutbreaks userId outbreaks (forIn outbreaks) s in
    (Issued Login :: Settled Login true :: tr, done, s)
  | (s, None) => ([Issued Login; Settled Login false], false, s)
  end.
End CaseSender.

(** ** Loading of tracked entity instances and cases *)

(** Modelled from the spec: allPromises of ../util, which is not among the
    sources.  The joint promise resolves with the results of the promises,
    in the order of the list, and rejects when one of them rejects
    (fail-fast).  A promise is what it settles to: [None] when it rejects. *)
Definition resolveAll {A} (promises : list (option A)) : option (list A) :=
  mapM id promises.

(* The answers of the DHIS2 client, taken to depend on the arguments alone.
   The instances of an organisation unit may hold null; the events are
   whatever the client resolves with. *)
Record DHIS2 := {
  getTrackedEntityInstances : string → string → option (list (option obj));
  getTrackedEntityEvents : option field → option field
}.

(* R.flatten of the lists of instances, one per organisation unit *)
Definition loadTrackedEntityInstances (dhis2 : DHIS2)
    (organisationUnits : list OrganisationUnit) (programID : string) : option (list obj) :=
  trackedEntities ←
    resolveAll
      (map (λ ou,
              trackedEntityInstances ← getTrackedEntityInstances dhis2 (ou_id ou) programID;
              resolveAll
                (map (λ te,
                        events ← getTrackedEntityEvents dhis2 (te !! "trackedEntityInstance");
                        Some (<["events" := events]> te))
                     (omap id trackedEntityInstances)))
           organisationUnits);
  Some (concat trackedEntities).


(** ** Notions the properties are stated with *)

(* the parent link that findOutbreackForCase follows from [id] *)
Definition parentOf (orgUnits : list OrganisationUnit) (id : string) : option string :=
  find (propEq ou_id id) orgUnits ≫= parent.

(* [a] is [id] or one of its ancestors *)
Definition ancestor (orgUnits : list OrganisationUnit) : relation string :=
  rtc (λ a b, parentOf orgUnits a = Some b).

(* the parent links form a rooted forest: the chain of parents of every
   unit ends, in a unit without a parent *)
Definition acyclic_rooted (orgUnits : list OrganisationUnit) : Prop :=
  ∀ ou, ou ∈ orgUnits → ∃ r, ancestor orgUnits (ou_id ou) r ∧ parentOf orgUnits r = None.

(* [dv] is the first data value of [dvs] for the data element [d] *)
Definition first_for (dvs : list DataValue) (d : string) (dv : DataValue) : Prop :=
  ∃ pre post, dvs = (pre ++ dv :: post)%list ∧ dataElement dv = d ∧
              ∀ x, x ∈ pre → dataElement x ≠ d.

(* the field names of the four stage roles *)
Definition stageFields : list string :=
  ["clinicalExamination"; "labRequestStage"; "labResultStage"; "symptoms"].

Definition caseClassifications : list string :=
  ["CONFIRMED"; "NOT_A_CASE_DISCARDED"; "PROBABLE"; "SUSPECT"].

(* no event of the list belongs to the program stage *)
Definition no_event_for (programStageID : string) (events : list Event) : Prop :=
  ∀ e, e ∈ events → programStage e ≠ programStageID.

(* every creation call for an outbreak comes after an activation of that
   outbreak has resolved *)
Definition activation_before_creation (tr : list event) : Prop :=
  ∀ pre post outbreak case_,
    tr = (pre ++ Issued (CreateOutbreakCase outbreak case_) :: post)%list →
    ∃ userId, Settled (ActivateOutbreakForUser userId outbreak) true ∈ pre.

(* login is the first call, is issued once, and has resolved before any
   activation is issued *)
Definition login_once_first (tr : list event) : Prop :=
  ∃ rest, tr = Issued Login :: rest ∧ (Issued Login ∉ rest) ∧
    ∀ pre post userId outbreak,
      tr = (pre ++ Issued (ActivateOutbreakForUser userId outbreak) :: post)%list →
      Settled Login true ∈ pre.

(* the bucket of the key [k] of a grouping, after the elements of [l] were
   appended to it *)
Definition extend_bucket {A} (keyFn : A → string) (k : string) (o : option (list A))
    (l : list A) : option (list A) :=
  match o, filter (λ x, keyFn x = k) l with
  | None, [] => None
  | _, new => Some (default [] o ++ new)%list
  end.

(* the creation calls of [tr] are for outbreaks in [activated], or for
   outbreaks whose activation resolved earlier in [tr] *)
Fixpoint creations_activated (activated : list string) (tr : list event) : Prop :=
  match tr with
  | [] => True
  | Settled (ActivateOutbreakForUser _ outbreak) true :: tr =>
    creations_activated (outbreak :: activated) tr
  | Issued (CreateOutbreakCase outbreak _) :: tr =>
    outbreak ∈ activated ∧ creations_activated activated tr
  | _ :: tr => creations_activated activated tr
  end.


(* the creation calls of a run: outbreak and case, in the order of issue *)
Definition creations (tr : list event) : list (string * obj) :=
  omap (λ e, match e with
             | Issued (CreateOutbreakCase outbreak case_) => Some (outbreak, case_)
             | _ => None
             end) tr.

(* the activation calls of a run: user and outbreak, in the order of issue *)
Definition activations (tr : list event) : list (string * string) :=
  omap (λ e, match e with
             | Issued (ActivateOutbreakForUser userId outbreak) => Some (userId, outbreak)
             | _ => None
             end) tr.

(* what sendCasesToGoData sends for a case: the outbreak it is grouped
   under, and the case without its outbreak *)
Definition sent (case_ : obj) : string * obj :=
  (toKey (case_ !! "outbreak"), delete "outbreak" case_).

(* a rejection that the run awaits is the last event of its trace, and then
   the loop over the outbreaks did not run to its end *)
Fixpoint rejection_ends (done : bool) (tr : list event) : Prop :=
  match tr with
  | [] => True
  | Settled _ false :: tr => tr = [] ∧ done = false
  | _ :: tr => rejection_ends done tr
  end.

(* the instances of one organisation unit with their events: the async
   function that loadTrackedEntityInstances maps over the organisation
   units *)
Definition loadOrganisationUnit (dhis2 : DHIS2) (programID : string)
    (ou : OrganisationUnit) : option (list obj) :=
  trackedEntityInstances ← getTrackedEntityInstances dhis2 (ou_id ou) programID;
  resolveAll
    (map (λ te : obj,
            events ← getTrackedEntityEvents dhis2 (te !! "trackedEntityInstance");
            Some (<["events" := events]> te))
         (omap id trackedEntityInstances)).

(** * Properties *)

(** ** Lab result *)

Lemma find_first_for dvs d dv :
  findDataValueByID dvs d = Some dv ↔ first_for dvs d dv.
Proof.
  unfold findDataValueByID, first_for, propEq. split.
  - induction dvs as [|x dvs IH]; simpl; [done|].
    case_bool_decide as Hx.
    + intros [= ->]. exists [], dvs. split_and!; [done|done|]. by intros ? ?%elem_of_nil.
    + intros (pre & post & -> & Hd & Hpre)%IH.
      exists (x :: pre), post. split_and!; [done|done|].
      intros y [->|Hy]%elem_of_cons; auto.
  - intros (pre & post & -> & Hd & Hpre).
    induction pre as [|x pre IH]; simpl.
    + by rewrite bool_decide_eq_true_2.
    + rewrite bool_decide_eq_false_2; [|apply Hpre; left].
      apply IH. intros y Hy. apply Hpre. by right.
Qed.

Lemma find_none_for dvs d :
  findDataValueByID dvs d = None ↔ ∀ dv, dv ∈ dvs → dataElement dv ≠ d.
Proof.
  unfold findDataValueByID, propEq. induction dvs as [|x dvs IH]; simpl.
  - split; [|done]. by intros _ ? ?%elem_of_nil.
  - case_bool_decide as Hx; split.
    + done.
    + intros H. destruct (H x); [left|done].
    + intros Hn y [->|Hy]%elem_of_cons; [done|]. revert y Hy. by apply IH.
    + intros H. apply IH. intros y Hy. apply H. by right.
Qed.

Lemma checkDataValue_true dvs d v :
  checkDataValue dvs d v = true ↔ ∃ dv, first_for dvs d dv ∧ value dv = v.
Proof.
  unfold checkDataValue. rewrite bool_decide_eq_true. split.
  - destruct (findDataValueByID dvs d) as [dv|] eqn:Hf; simpl; [|done].
    intros [= <-]. exists dv. split; [by apply find_first_for|done].
  - intros (dv & ->%find_first_for & <-). done.
Qed.

Lemma checkDataValuesConditions_true conds te :
  checkDataValuesConditions conds te = true ↔
  ∀ d v, (d, v) ∈ conds → ∃ dv, first_for (labResultStage_values te) d dv ∧ value dv = v.
Proof.
  unfold checkDataValuesConditions. rewrite forallb_forall. split.
  - intros H d v Hin. apply checkDataValue_true.
    apply (H (d, v)). by apply list_elem_of_In.
  - intros H [d v] Hin. apply checkDataValue_true, H. by apply list_elem_of_In.
Qed.

(* the lab result is set whatever the stage holds *)
Lemma addLabResult_sets conds te :
  addLabResult conds te =
  <["labResult" := FStr (if checkDataValuesConditions conds te
                         then "POSITIVE" else "NEGATIVE")]> te.
Proof. reflexivity. Qed.

Lemma checkDataValuesConditions_empty_stage conds te :
  labResultStage_values te = [] →
  checkDataValuesConditions conds te = bool_decide (conds = []).
Proof.
  intros Hs. unfold checkDataValuesConditions. rewrite Hs.
  destruct conds as [|[d v] conds]; [done|].
  by rewrite bool_decide_eq_false_2.
Qed.

(** C1 (the code departs from the claim): a tracked entity instance whose
    labResultStage is the empty list does not come back unchanged from
    addLabResult.  The comparison with a fresh array lets every instance
    through, and labResult is set: to NEGATIVE as soon as there is a
    condition to check, to POSITIVE when there is none. *)
Theorem addLabResult_empty_stage_sets_labResult :
  let te : obj := {[ "labResultStage" := FDataValues [] ]} in
  te !! "labResult" = None ∧
  addLabResult [("dataElementA", "Positive")] te !! "labResult" = Some (FStr "NEGATIVE") ∧
  addLabResult [] te !! "labResult" = Some (FStr "POSITIVE") ∧
  ∀ conds (te' : obj), te' !! "labResultStage" = Some (FDataValues []) →
    addLabResult conds te' !! "labResult"
    = Some (FStr (if bool_decide (conds = []) then "POSITIVE" else "NEGATIVE")).
Proof.
  split_and!; [done|done|done|].
  intros conds te' Hs. rewrite addLabResult_sets, lookup_insert_eq.
  rewrite checkDataValuesConditions_empty_stage; [done|].
  unfold labResultStage_values. by rewrite Hs.
Qed.

(** C2, as stated, fails: with two data values for one data element, some
    data value has the expected value, yet the first one, which is the one
    the code reads, has not, and the lab result is NEGATIVE. *)
Lemma addLabResult_some_value_counterexample :
  let dvs := [ {| dataElement := "A"; value := "x"; displayName := None |};
               {| dataElement := "A"; value := "y"; displayName := None |} ] in
  let te : obj := {[ "labResultStage" := FDataValues dvs ]} in
  let conds := [("A", "y")] in
  dvs ≠ [] ∧
  (∀ d v, (d, v) ∈ conds → ∃ dv, dv ∈ dvs ∧ dataElement dv = d ∧ value dv = v) ∧
  addLabResult conds te !! "labResult" = Some (FStr "NEGATIVE").
Proof.
  split_and!; [done| |done].
  intros d v [[= -> ->]|[]%elem_of_nil]%elem_of_cons.
  eexists. split; [right; left|done].
Qed.

(** C2 (amended): for a tracked entity instance with a non-empty
    labResultStage and every list of conditions, addLabResult sets labResult
    to POSITIVE if and only if, for every pair, the first data value of the
    stage with that dataElement exists and has the expected value, and to
    NEGATIVE otherwise; a pair whose dataElement no data value of the stage
    has is a failed condition. *)
Theorem addLabResult_first_value conds (te : obj) dvs :
  te !! "labResultStage" = Some (FDataValues dvs) →
  dvs ≠ [] →
  ∃ r, addLabResult conds te = <["labResult" := FStr r]> te ∧
       (r = "POSITIVE" ∨ r = "NEGATIVE") ∧
       (r = "POSITIVE" ↔
        ∀ d v, (d, v) ∈ conds → ∃ dv, first_for dvs d dv ∧ value dv = v) ∧
       (∀ d v, (d, v) ∈ conds → (∀ dv, dv ∈ dvs → dataElement dv ≠ d) → r = "NEGATIVE").
Proof.
  intros Hs _. rewrite addLabResult_sets.
  assert (labResultStage_values te = dvs) as Hv
    by (unfold labResultStage_values; by rewrite Hs).
  pose proof (checkDataValuesConditions_true conds te) as Hc. rewrite Hv in Hc.
  destruct (checkDataValuesConditions conds te); eexists; (split; [done|]).
  - split_and!; [by left| |].
    + split; [intros _; by apply Hc|done].
    + intros d v Hin Hno. destruct Hc as [Hc _].
      destruct (Hc eq_refl d v Hin) as (dv & (pre & post & -> & Hd & _) & _).
      destruct (Hno dv); [|done]. apply elem_of_app. right. left.
  - split_and!; [by right| |done].
    split; [done|]. intros H. by apply Hc in H.
Qed.

Lemma addLabResult_first_value_witness :
  ∃ r, addLabResult [("A", "x")]
         ({[ "labResultStage" :=
               FDataValues [ {| dataElement := "A"; value := "x"; displayName := None |} ] ]} : obj)
       = <["labResult" := FStr r]>
           ({[ "labResultStage" :=
                 FDataValues [ {| dataElement := "A"; value := "x"; displayName := None |} ] ]} : obj)
       ∧ r = "POSITIVE".
Proof.
  destruct (addLabResult_first_value [("A", "x")]
              ({[ "labResultStage" :=
                    FDataValues [ {| dataElement := "A"; value := "x"; displayName := None |} ] ]} : obj)
              [ {| dataElement := "A"; value := "x"; displayName := None |} ])
    as (r & Hr & _ & Hpos & _); [reflexivity|discriminate|].
  exists r. split; [exact Hr|].
  apply Hpos. intros d v Hin.
  exists {| dataElement := "A"; value := "x"; displayName := None |}.
  apply list_elem_of_singleton in Hin. injection Hin as -> ->.
  split; [|reflexivity].
  exists [], []. split_and!; [reflexivity|reflexivity|]. intros x Hx. by apply elem_of_nil in Hx.
Defined.

(** ** Case classification *)

Lemma labResult_is_decide (te : obj) s :
  labResult_is te s = bool_decide (te !! "labResult" = Some (FStr s)).
Proof. reflexivity. Qed.

(* the priority chain, with both stage fields present *)
Lemma addCaseClassification_present (te : obj) results requests :
  te !! "labResultStage" = Some (FDataValues results) →
  te !! "labRequestStage" = Some (FDataValues requests) →
  addCaseClassification te =
  Ok (<["caseClassification" :=
          FStr (if decide (te !! "labResult" = Some (FStr "POSITIVE"))
                then "CONFIRMED"
                else if decide (te !! "labResult" = Some (FStr "NEGATIVE") ∧ results ≠ [])
                then "NOT_A_CASE_DISCARDED"
                else if decide (requests ≠ [])
                then "PROBABLE"
                else "SUSPECT")]> te).
Proof.
  intros Hres Hreq. unfold addCaseClassification.
  rewrite !labResult_is_decide, Hres, Hreq. simpl.
  destruct (decide (te !! "labResult" = Some (FStr "POSITIVE"))) as [Hp|Hp].
  { by rewrite bool_decide_eq_true_2. }
  rewrite (bool_decide_eq_false_2 _ Hp).
  destruct (decide (te !! "labResult" = Some (FStr "NEGATIVE") ∧ results ≠ []))
    as [[Hn Hne]|Hn].
  { rewrite (bool_decide_eq_true_2 _ Hn). simpl.
    by rewrite (bool_decide_eq_true_2 _ Hne). }
  assert ((if bool_decide (te !! "labResult" = Some (FStr "NEGATIVE"))
           then Ok (bool_decide (results ≠ [])) else Ok false) = Ok false) as ->.
  { case_bool_decide; [|done]. rewrite bool_decide_eq_false_2; [done|]. tauto. }
  simpl. destruct (decide (requests ≠ [])) as [Hq|Hq].
  - by rewrite (bool_decide_eq_true_2 _ Hq).
  - by rewrite (bool_decide_eq_false_2 _ Hq).
Qed.

(** C3: for a tracked entity instance whose labResultStage and
    labRequestStage are present, addCaseClassification sets
    caseClassification by the first rule that matches: labResult POSITIVE
    gives CONFIRMED; else labResult NEGATIVE with a non-empty labResultStage
    gives NOT_A_CASE_DISCARDED; else a non-empty labRequestStage gives
    PROBABLE; else SUSPECT. *)
Theorem addCaseClassification_chain (te : obj) results requests :
  te !! "labResultStage" = Some (FDataValues results) →
  te !! "labRequestStage" = Some (FDataValues requests) →
  addCaseClassification te =
  Ok (<["caseClassification" :=
          FStr (if decide (te !! "labResult" = Some (FStr "POSITIVE"))
                then "CONFIRMED"
                else if decide (te !! "labResult" = Some (FStr "NEGATIVE") ∧ results ≠ [])
                then "NOT_A_CASE_DISCARDED"
                else if decide (requests ≠ [])
                then "PROBABLE"
                else "SUSPECT")]> te).
Proof. apply addCaseClassification_present. Qed.

Lemma addCaseClassification_chain_witness :
  addCaseClassification
    ({[ "labResultStage" := FDataValues []; "labRequestStage" := FDataValues [] ]} : obj)
  = Ok (<["caseClassification" := FStr "SUSPECT"]>
          ({[ "labResultStage" := FDataValues []; "labRequestStage" := FDataValues [] ]} : obj)).
Proof.
  exact (addCaseClassification_chain
           ({[ "labResultStage" := FDataValues []; "labRequestStage" := FDataValues [] ]} : obj)
           [] [] eq_refl eq_refl).
Defined.

(* the classification is one of the four, whenever one is set *)
Lemma addCaseClassification_range (te te' : obj) :
  addCaseClassification te = Ok te' →
  ∃ c, te' = <["caseClassification" := FStr c]> te ∧ c ∈ caseClassifications.
Proof.
  unfold addCaseClassification, caseClassifications.
  destruct (labResult_is te "POSITIVE"); simpl.
  { intros [= <-]. eexists. split; [done|]. set_solver. }
  destruct (if labResult_is te "NEGATIVE" then _ else _) as [[]|]; simpl; [| |done].
  { intros [= <-]. eexists. split; [done|]. set_solver. }
  destruct (length_gt_0 _) as [[]|]; simpl; [| |done];
    intros [= <-]; eexists; (split; [done|]); set_solver.
Qed.

(** ** Event enrichment *)

Lemma find_no_event_for programStageID events :
  no_event_for programStageID events →
  find (propEq programStage programStageID) events = None.
Proof.
  unfold no_event_for, propEq. induction events as [|e events IH]; [done|].
  intros H. simpl. rewrite bool_decide_eq_false_2; [|apply H; left].
  apply IH. intros e' He'. apply H. by right.
Qed.

Lemma findAndTransformEvent_no_event dataElements programStageID events :
  no_event_for programStageID events →
  findAndTransformEvent dataElements programStageID events = [].
Proof.
  intros H. unfold findAndTransformEvent. by rewrite find_no_event_for.
Qed.

(** C8: for a tracked entity instance whose event list holds no event of
    the configured program stage, the enrichment finds no data values
    (findAndTransformEvent yields the empty list) and addEvent raises no
    error and stores the empty list under the stage's field name. *)
Theorem addEvent_no_event dataElements eventName programStageID (te : obj) events :
  te !! "events" = Some (FEvents events) →
  no_event_for programStageID events →
  findAndTransformEvent dataElements programStageID events = [] ∧
  addEvent dataElements eventName programStageID te = Ok (<[eventName := FDataValues []]> te).
Proof.
  intros He Hno. split; [by apply findAndTransformEvent_no_event|].
  unfold addEvent, te_events. rewrite He. simpl.
  by rewrite findAndTransformEvent_no_event.
Qed.

Lemma addEvent_no_event_witness :
  addEvent [] "labResultStage" "stageB"
    ({[ "events" := FEvents [ {| programStage := "stageA"; dataValues := Some [] |} ] ]} : obj)
  = Ok (<["labResultStage" := FDataValues []]>
          ({[ "events" := FEvents [ {| programStage := "stageA"; dataValues := Some [] |} ] ]} : obj)).
Proof.
  refine (proj2 (addEvent_no_event [] "labResultStage" "stageB"
           ({[ "events" := FEvents [ {| programStage := "stageA"; dataValues := Some [] |} ] ]} : obj)
           [ {| programStage := "stageA"; dataValues := Some [] |} ] eq_refl _)).
  intros e He. apply list_elem_of_singleton in He. rewrite He. discriminate.
Defined.

Lemma te_events_insert_ne name v (te : obj) :
  name ≠ "events" → te_events (<[name := v]> te) = te_events te.
Proof. intros Hne. unfold te_events. by rewrite lookup_insert_ne. Qed.

(* two enrichments that write distinct fields, none of them the events *)
Lemma addEvent_comm dataElements name1 id1 name2 id2 (te : obj) :
  name1 ≠ name2 → name1 ≠ "events" → name2 ≠ "events" →
  addEvent dataElements name1 id1 te ≫= addEvent dataElements name2 id2
  = addEvent dataElements name2 id2 te ≫= addEvent dataElements name1 id1.
Proof.
  intros Hne H1 H2. unfold addEvent.
  destruct (te_events te) as [events|] eqn:He; simpl; [|done].
  rewrite !te_events_insert_ne, He by done. simpl.
  f_equal. by apply insert_insert_ne.
Qed.

Lemma stageFields_not_events name : name ∈ stageFields → name ≠ "events".
Proof.
  unfold stageFields. intros H ->.
  repeat (apply elem_of_cons in H as [H|H]; [discriminate H|]).
  by apply elem_of_nil in H.
Qed.

(** C9: the stage enrichments commute.  For every tracked entity instance
    and every two distinct stage roles (field names among
    clinicalExamination, labRequestStage, labResultStage and symptoms, with
    any stage ids), applying the two addEvent enrichments in either order
    yields the same result. *)
Theorem addEvent_stages_commute dataElements name1 id1 name2 id2 (te : obj) :
  name1 ∈ stageFields → name2 ∈ stageFields → name1 ≠ name2 →
  addEvent dataElements name1 id1 te ≫= addEvent dataElements name2 id2
  = addEvent dataElements name2 id2 te ≫= addEvent dataElements name1 id1.
Proof.
  intros H1 H2 Hne. apply addEvent_comm; auto using stageFields_not_events.
Qed.

Lemma addEvent_stages_commute_witness :
  addEvent [] "symptoms" "s1"
    ({[ "events" := FEvents [] ]} : obj) ≫= addEvent [] "labRequestStage" "s2"
  = addEvent [] "labRequestStage" "s2"
      ({[ "events" := FEvents [] ]} : obj) ≫= addEvent [] "symptoms" "s1".
Proof.
  apply (addEvent_stages_commute [] "symptoms" "s1" "labRequestStage" "s2").
  - unfold stageFields. do 3 right. left.
  - unfold stageFields. right. left.
  - discriminate.
Defined.

(** ** The pipeline of addLabInformation *)

(* the four stage fields written by the enrichments of addLabInformation *)
Lemma addLabInformation_enriched i1 i2 i3 i4 dataElements conds (te : obj) events :
  te !! "events" = Some (FEvents events) →
  addLabInformation (i1, i2, i3, i4) dataElements conds te =
  addCaseClassification (addLabResult conds
    (<["symptoms" := FDataValues (findAndTransformEvent dataElements i4 events)]>
     (<["labResultStage" := FDataValues (findAndTransformEvent dataElements i3 events)]>
      (<["labRequestStage" := FDataValues (findAndTransformEvent dataElements i2 events)]>
       (<["clinicalExamination" :=
            FDataValues (findAndTransformEvent dataElements i1 events)]> te))))).
Proof.
  intros He. unfold addLabInformation, addEvent.
  assert (te_events te = Ok events) as Hte by (unfold te_events; by rewrite He).
  rewrite Hte. simpl.
  rewrite te_events_insert_ne, Hte by done. simpl.
  rewrite !te_events_insert_ne, Hte by done. simpl.
  rewrite !te_events_insert_ne, Hte by done. simpl.
  done.
Qed.

(* the closed form of the pipeline: the lab result is read off the enriched
   labResultStage, the classification off the lab result and the two
   stages *)
Lemma addLabInformation_closed i1 i2 i3 i4 dataElements conds (te : obj) events :
  te !! "events" = Some (FEvents events) →
  let requests := findAndTransformEvent dataElements i2 events in
  let results := findAndTransformEvent dataElements i3 events in
  let positive := forallb (λ '(d, v), checkDataValue results d v) conds in
  addLabInformation (i1, i2, i3, i4) dataElements conds te =
  Ok (<["caseClassification" :=
          FStr (if positive then "CONFIRMED"
                else if bool_decide (results ≠ []) then "NOT_A_CASE_DISCARDED"
                else if bool_decide (requests ≠ []) then "PROBABLE"
                else "SUSPECT")]>
      (<["labResult" := FStr (if positive then "POSITIVE" else "NEGATIVE")]>
       (<["symptoms" := FDataValues (findAndTransformEvent dataElements i4 events)]>
        (<["labResultStage" := FDataValues results]>
         (<["labRequestStage" := FDataValues requests]>
          (<["clinicalExamination" :=
               FDataValues (findAndTransformEvent dataElements i1 events)]> te)))))).
Proof.
  intros He requests results positive.
  rewrite (addLabInformation_enriched _ _ _ _ _ _ _ _ He).
  fold requests results. rewrite addLabResult_sets.
  set (te4 := <["symptoms" := _]> _).
  assert (labResultStage_values te4 = results) as Hv.
  { unfold labResultStage_values, te4.
    rewrite lookup_insert_ne, lookup_insert_eq by done. done. }
  assert (checkDataValuesConditions conds te4 = positive) as ->.
  { unfold checkDataValuesConditions. by rewrite Hv. }
  rewrite (addCaseClassification_present _ results requests).
  - f_equal. f_equal. f_equal. rewrite lookup_insert_eq.
    destruct positive.
    + by rewrite decide_True.
    + rewrite decide_False by done.
      destruct (decide (results ≠ [])) as [Hr|Hr].
      * rewrite decide_True by done. by rewrite bool_decide_eq_true_2.
      * rewrite decide_False by tauto. rewrite (bool_decide_eq_false_2 _ Hr).
        by destruct (decide (requests ≠ [])); [rewrite bool_decide_eq_true_2
                                                |rewrite bool_decide_eq_false_2].
  - unfold te4. by rewrite lookup_insert_ne, lookup_insert_ne, lookup_insert_eq.
  - unfold te4.
    by rewrite lookup_insert_ne, lookup_insert_ne, lookup_insert_ne, lookup_insert_eq.
Qed.

(** C10: for every tracked entity instance (an object with its list of
    events) and every configuration, addLabInformation returns an instance
    whose caseClassification is one of CONFIRMED, NOT_A_CASE_DISCARDED,
    PROBABLE and SUSPECT; the field is always set, and a value it held
    before is overwritten: the result does not depend on it. *)
Theorem addLabInformation_classifies programsIDs dataElements conds (te : obj) events :
  te !! "events" = Some (FEvents events) →
  ∃ te' c,
    addLabInformation programsIDs dataElements conds te = Ok te' ∧
    te' !! "caseClassification" = Some (FStr c) ∧
    c ∈ caseClassifications ∧
    ∀ v, addLabInformation programsIDs dataElements conds
           (<["caseClassification" := v]> te) = Ok te'.
Proof.
  intros He. destruct programsIDs as [[[i1 i2] i3] i4].
  rewrite (addLabInformation_closed _ _ _ _ _ _ _ _ He).
  eexists _, _. split_and!; [done|by rewrite lookup_insert_eq| |].
  - unfold caseClassifications.
    destruct (forallb _ _); [|destruct (bool_decide _); [|destruct (bool_decide _)]];
      repeat constructor.
  - intros v.
    rewrite (addLabInformation_closed _ _ _ _ _ _ _ events)
      by (by rewrite lookup_insert_ne).
    f_equal. apply map_eq. intros k.
    rewrite !lookup_insert. repeat case_decide; congruence.
Qed.

Lemma addLabInformation_classifies_witness :
  ∃ te' c,
    addLabInformation ("ce", "lq", "lr", "sy") [] [("A", "x")]
      ({[ "events" := FEvents [] ]} : obj) = Ok te' ∧
    te' !! "caseClassification" = Some (FStr c) ∧
    c ∈ caseClassifications ∧
    ∀ v, addLabInformation ("ce", "lq", "lr", "sy") [] [("A", "x")]
           (<["caseClassification" := v]> ({[ "events" := FEvents [] ]} : obj)) = Ok te'.
Proof.
  exact (addLabInformation_classifies ("ce", "lq", "lr", "sy") [] [("A", "x")]
           ({[ "events" := FEvents [] ]} : obj) [] eq_refl).
Defined.

(* with no event of any of the four stages, whether the classification is
   SUSPECT hangs on there being a condition to check *)
Lemma addLabInformation_all_stages_empty i1 i2 i3 i4 dataElements conds (te : obj) events :
  te !! "events" = Some (FEvents events) →
  no_event_for i1 events → no_event_for i2 events →
  no_event_for i3 events → no_event_for i4 events →
  ∃ te', addLabInformation (i1, i2, i3, i4) dataElements conds te = Ok te' ∧
         te' !! "clinicalExamination" = Some (FDataValues []) ∧
         te' !! "labRequestStage" = Some (FDataValues []) ∧
         te' !! "labResultStage" = Some (FDataValues []) ∧
         te' !! "symptoms" = Some (FDataValues []) ∧
         te' !! "caseClassification" =
           Some (FStr (if bool_decide (conds = []) then "CONFIRMED" else "SUSPECT")).
Proof.
  intros He H1 H2 H3 H4.
  rewrite (addLabInformation_closed _ _ _ _ _ _ _ _ He).
  rewrite !findAndTransformEvent_no_event by done.
  eexists. split; [done|].
  split_and!; try (by repeat (rewrite lookup_insert_ne by done); rewrite lookup_insert_eq).
  rewrite lookup_insert_eq.
  destruct conds as [|[d v] conds]; [done|].
  assert (checkDataValue [] d v = false) as Hf by (by apply bool_decide_eq_false_2).
  cbn [forallb]. rewrite Hf. cbn [andb].
  rewrite (bool_decide_eq_false_2 ([] ≠ [])) by (intros H; by apply H).
  by rewrite bool_decide_eq_false_2.
Qed.

(** C7 (the code departs from the claim): given a tracked entity instance
    without events, so that the four stages are empty, and no confirmed-test
    condition, addLabInformation sets labResult to POSITIVE, for addLabResult
    runs on the empty stage too, and the classification is CONFIRMED, not
    SUSPECT.  With at least one condition the classification is SUSPECT. *)
Theorem addLabInformation_empty_stages_confirmed :
  (∃ te', addLabInformation ("ce", "lq", "lr", "sy") [] []
            ({[ "events" := FEvents [] ]} : obj) = Ok te' ∧
          te' !! "labResultStage" = Some (FDataValues []) ∧
          te' !! "labResult" = Some (FStr "POSITIVE") ∧
          te' !! "caseClassification" = Some (FStr "CONFIRMED")) ∧
  (∀ i1 i2 i3 i4 dataElements conds (te : obj) events,
     te !! "events" = Some (FEvents events) →
     no_event_for i1 events → no_event_for i2 events →
     no_event_for i3 events → no_event_for i4 events →
     conds ≠ [] →
     ∃ te', addLabInformation (i1, i2, i3, i4) dataElements conds te = Ok te' ∧
            te' !! "caseClassification" = Some (FStr "SUSPECT")).
Proof.
  split.
  - eexists. split; [reflexivity|]. split_and!; reflexivity.
  - intros i1 i2 i3 i4 dataElements conds te events He H1 H2 H3 H4 Hc.
    destruct (addLabInformation_all_stages_empty i1 i2 i3 i4 dataElements conds te events)
      as (te' & Hte' & _ & _ & _ & _ & Hcc); try done.
    exists te'. split; [done|]. by rewrite Hcc, bool_decide_eq_false_2.
Qed.

(** ** Outbreak assignment *)

Section reduceBy.
Context {A : Type} (keyFn : A → string).

Lemma foldl_reduceBy_lookup (l : list A) (acc : gmap string (list A)) k :
  foldl (λ acc el, <[keyFn el := (default [] (acc !! keyFn el) ++ [el])%list]> acc) acc l !! k
  = extend_bucket keyFn k (acc !! k) l.
Proof.
  revert acc. induction l as [|x l IH]; intros acc; simpl.
  { unfold extend_bucket. rewrite filter_nil.
    destruct (acc !! k); simpl; [by rewrite app_nil_r|done]. }
  rewrite IH. unfold extend_bucket. destruct (decide (keyFn x = k)) as [<-|Hne].
  - rewrite lookup_insert_eq, filter_cons_True by done. simpl.
    rewrite <- app_assoc. simpl.
    by destruct (acc !! keyFn x).
  - by rewrite lookup_insert_ne, filter_cons_False by done.
Qed.

(* a bucket holds the elements of its key, in the order of the list *)
Lemma reduceBy_lookup (l : list A) k :
  reduceBy keyFn l !! k =
  match filter (λ x, keyFn x = k) l with
  | [] => None
  | bucket => Some bucket
  end.
Proof.
  unfold reduceBy. rewrite foldl_reduceBy_lookup. unfold extend_bucket.
  by rewrite lookup_empty.
Qed.

Lemma reduceBy_lookup_Some (l : list A) k bucket :
  reduceBy keyFn l !! k = Some bucket →
  bucket = filter (λ x, keyFn x = k) l ∧
  head bucket = find (propEq keyFn k) l ∧
  is_Some (head bucket).
Proof.
  rewrite reduceBy_lookup.
  assert (head (filter (λ x, keyFn x = k) l) = find (propEq keyFn k) l) as Hhead.
  { unfold propEq. induction l as [|x l IH]; [done|]. simpl.
    case_bool_decide.
    - by rewrite filter_cons_True.
    - by rewrite filter_cons_False. }
  destruct (filter _ l) as [|o bucket'] eqn:Hf; [done|].
  intros [= <-]. rewrite <- Hhead. eauto.
Qed.
End reduceBy.

Lemma findOutbreackForCase_hit fuel available orgUnits locationID bucket :
  available !! locationID = Some bucket →
  findOutbreackForCase (S fuel) available orgUnits locationID
  = ([], Found (ob_id <$> head bucket)).
Proof. intros H. simpl. by rewrite H. Qed.

Lemma findOutbreackForCase_parent fuel available orgUnits locationID parentID :
  available !! locationID = None →
  parentOf orgUnits locationID = Some parentID →
  findOutbreackForCase (S fuel) available orgUnits locationID
  = (locationID :: (findOutbreackForCase fuel available orgUnits parentID).1,
     (findOutbreackForCase fuel available orgUnits parentID).2).
Proof.
  unfold parentOf. intros Ha Hp. simpl. rewrite Ha.
  destruct (find _ orgUnits) as [ou|]; simpl in Hp; [|done].
  rewrite Hp. by destruct (findOutbreackForCase _ _ _ _).
Qed.

Lemma findOutbreackForCase_root fuel available orgUnits locationID :
  available !! locationID = None →
  parentOf orgUnits locationID = None →
  findOutbreackForCase (S fuel) available orgUnits locationID = ([locationID], Thrown).
Proof.
  unfold parentOf. intros Ha Hp. simpl. rewrite Ha.
  destruct (find _ orgUnits) as [ou|]; simpl in Hp; [|done].
  by rewrite Hp.
Qed.

(* the walk up the parents stops at the first id that the index has *)
Lemma findOutbreackForCase_reaches available orgUnits locationID a :
  ancestor orgUnits locationID a →
  is_Some (available !! a) →
  ∃ n searched id, ∀ fuel, (n ≤ fuel)%nat →
    findOutbreackForCase fuel available orgUnits locationID = (searched, Found id).
Proof.
  unfold ancestor. intros Hanc Ha.
  induction Hanc as [x|x y z Hxy Hyz IH].
  - destruct Ha as [bucket Hb]. exists 1, [], (ob_id <$> head bucket).
    intros [|fuel] Hfuel; [lia|]. by apply findOutbreackForCase_hit.
  - destruct (available !! x) as [bucket|] eqn:Hx.
    + exists 1, [], (ob_id <$> head bucket).
      intros [|fuel] Hfuel; [lia|]. by apply findOutbreackForCase_hit.
    + destruct (IH Ha) as (n & searched & id & Hn).
      exists (S n), (x :: searched), id.
      intros [|fuel] Hfuel; [lia|].
      rewrite (findOutbreackForCase_parent _ _ _ _ y) by done.
      rewrite Hn by lia. done.
Qed.

(* on a rooted forest the walk ends: with an outbreak id or a TypeError *)
Lemma findOutbreackForCase_rooted_ends available orgUnits locationID :
  acyclic_rooted orgUnits →
  ∃ n r, r.2 ≠ OutOfFuel ∧ ∀ fuel, (n ≤ fuel)%nat →
    findOutbreackForCase fuel available orgUnits locationID = r.
Proof.
  intros Hroot.
  assert (∀ x r, ancestor orgUnits x r → parentOf orgUnits r = None →
            ∃ n res, res.2 ≠ OutOfFuel ∧ ∀ fuel, (n ≤ fuel)%nat →
              findOutbreackForCase fuel available orgUnits x = res) as Hwalk.
  { unfold ancestor. intros x r Hanc Hr.
    induction Hanc as [x|x y z Hxy Hyz IH].
    - destruct (available !! x) as [bucket|] eqn:Hx.
      + exists 1, ([], Found (ob_id <$> head bucket)). split; [done|].
        intros [|fuel] Hfuel; [lia|]. by apply findOutbreackForCase_hit.
      + exists 1, ([x], Thrown). split; [done|].
        intros [|fuel] Hfuel; [lia|]. by apply findOutbreackForCase_root.
    - destruct (available !! x) as [bucket|] eqn:Hx.
      + exists 1, ([], Found (ob_id <$> head bucket)). split; [done|].
        intros [|fuel] Hfuel; [lia|]. by apply findOutbreackForCase_hit.
      + destruct (IH Hr) as (n & [searched res] & Hres & Hn).
        exists (S n), (x :: searched, res). split; [done|].
        intros [|fuel] Hfuel; [lia|].
        rewrite (findOutbreackForCase_parent _ _ _ _ y) by done.
        rewrite Hn by lia. done. }
  destruct (find (propEq ou_id locationID) orgUnits) as [ou|] eqn:Hfind.
  - apply find_some in Hfind as [Hin Hid].
    apply bool_decide_eq_true in Hid. subst locationID.
    destruct (Hroot ou) as (r & Hanc & Hr); [by apply list_elem_of_In|].
    by apply (Hwalk _ r).
  - apply (Hwalk _ locationID); [apply rtc_refl|].
    unfold parentOf. by rewrite Hfind.
Qed.

(** C5: for every list of organisation units whose parent links form a
    rooted forest without cycles, and every organisation unit one of whose
    ancestors (or which itself) is in the index of the outbreak locations,
    findOutbreackForCase terminates: from some depth of recursion on it
    returns an outbreak id, and resolving the same unit again, with any
    larger bound, searches the same units and yields the same id. *)
Theorem findOutbreackForCase_terminates available orgUnits locationID a :
  acyclic_rooted orgUnits →
  ancestor orgUnits locationID a →
  is_Some (available !! a) →
  ∃ n searched id,
    (∀ fuel, (n ≤ fuel)%nat →
       findOutbreackForCase fuel available orgUnits locationID = (searched, Found id)) ∧
    (∀ fuel fuel', (n ≤ fuel)%nat → (n ≤ fuel')%nat →
       findOutbreackForCase fuel available orgUnits locationID
       = findOutbreackForCase fuel' available orgUnits locationID).
Proof.
  intros _ Hanc Ha.
  destruct (findOutbreackForCase_reaches _ _ _ _ Hanc Ha) as (n & searched & id & Hn).
  exists n, searched, id. split; [done|].
  intros fuel fuel' H H'. by rewrite !Hn.
Qed.

(* U3 below U2 below U1, and one outbreak located at U1 *)
Lemma findOutbreackForCase_terminates_witness :
  ∃ n searched id,
    (∀ fuel, (n ≤ fuel)%nat →
       findOutbreackForCase fuel
         (locationsAvaliable [ {| ob_id := "O1"; locationIds := ["U1"] |} ])
         [ {| ou_id := "U3"; parent := Some "U2" |};
           {| ou_id := "U2"; parent := Some "U1" |};
           {| ou_id := "U1"; parent := None |} ] "U3" = (searched, Found id)) ∧
    (∀ fuel fuel', (n ≤ fuel)%nat → (n ≤ fuel')%nat →
       findOutbreackForCase fuel
         (locationsAvaliable [ {| ob_id := "O1"; locationIds := ["U1"] |} ])
         [ {| ou_id := "U3"; parent := Some "U2" |};
           {| ou_id := "U2"; parent := Some "U1" |};
           {| ou_id := "U1"; parent := None |} ] "U3"
       = findOutbreackForCase fuel'
         (locationsAvaliable [ {| ob_id := "O1"; locationIds := ["U1"] |} ])
         [ {| ou_id := "U3"; parent := Some "U2" |};
           {| ou_id := "U2"; parent := Some "U1" |};
           {| ou_id := "U1"; parent := None |} ] "U3").
Proof.
  apply (findOutbreackForCase_terminates _ _ "U3" "U1").
  - intros ou Hou. exists "U1".
    apply elem_of_cons in Hou as [->|Hou]; [|apply elem_of_cons in Hou as [->|Hou]].
    + split; [|reflexivity].
      eapply rtc_l; [reflexivity|]. eapply rtc_l; [reflexivity|]. apply rtc_refl.
    + split; [|reflexivity]. eapply rtc_l; [reflexivity|]. apply rtc_refl.
    + apply list_elem_of_singleton in Hou as ->. split; [|reflexivity]. apply rtc_refl.
  - eapply rtc_l; [reflexivity|]. eapply rtc_l; [reflexivity|]. apply rtc_refl.
  - eexists. reflexivity.
Defined.

Example assign_U3_gives_O1 :
  findOutbreackForCase 3
    (locationsAvaliable [ {| ob_id := "O1"; locationIds := ["U1"] |} ])
    [ {| ou_id := "U3"; parent := Some "U2" |};
      {| ou_id := "U2"; parent := Some "U1" |};
      {| ou_id := "U1"; parent := None |} ] "U3"
  = (["U3"; "U2"], Found (Some "O1")).
Proof. reflexivity. Qed.

(* a cycle of parents that no outbreak is located on exhausts any bound *)
Example cycle_runs_out_of_fuel :
  (findOutbreackForCase 50 ∅
     [ {| ou_id := "U1"; parent := Some "U2" |};
       {| ou_id := "U2"; parent := Some "U1" |} ] "U1").2 = OutOfFuel.
Proof. reflexivity. Qed.

(** C6: for every index of outbreak locations and every organisation unit
    id that is a key of it, findOutbreackForCase returns at once, searching
    no organisation unit for a parent, with the id of the first outbreak of
    that key's bucket; and in the index that assignOutbreak builds, the
    bucket holds the outbreaks with that first location in the order of the
    outbreak list, so that the first of them in the list is the one
    assigned. *)
Theorem findOutbreackForCase_direct available orgUnits locationID bucket fuel :
  available !! locationID = Some bucket →
  findOutbreackForCase (S fuel) available orgUnits locationID
  = ([], Found (ob_id <$> head bucket)) ∧
  ∀ outbreaks (te : obj),
    available = locationsAvaliable outbreaks →
    te !! "orgUnit" = Some (FStr locationID) →
    ∃ o, bucket = filter (λ o', firstLocation o' = locationID) outbreaks ∧
         head bucket = Some o ∧
         find (propEq firstLocation locationID) outbreaks = Some o ∧
         assignOutbreak (S fuel) outbreaks orgUnits te
         = Some (Ok (<["outbreak" := FStr (ob_id o)]> te)).
Proof.
  intros Hb. split; [by apply findOutbreackForCase_hit|].
  intros outbreaks te -> Hte.
  destruct (reduceBy_lookup_Some _ _ _ _ Hb) as (Hbucket & Hhead & [o Ho]).
  exists o. split_and!; [done|done|congruence|].
  unfold assignOutbreak. rewrite Hte.
  rewrite (findOutbreackForCase_hit _ _ _ _ _ Hb). simpl. by rewrite Ho.
Qed.

(* two outbreaks located at U1: the first of the list is assigned *)
Lemma findOutbreackForCase_direct_witness :
  findOutbreackForCase 1
    (locationsAvaliable [ {| ob_id := "O1"; locationIds := ["U1"; "U7"] |};
                          {| ob_id := "O2"; locationIds := ["U1"] |} ])
    [] "U1"
  = ([], Found (ob_id <$> head [ {| ob_id := "O1"; locationIds := ["U1"; "U7"] |};
                                 {| ob_id := "O2"; locationIds := ["U1"] |} ])).
Proof.
  exact (proj1 (findOutbreackForCase_direct
           (locationsAvaliable [ {| ob_id := "O1"; locationIds := ["U1"; "U7"] |};
                                 {| ob_id := "O2"; locationIds := ["U1"] |} ])
           [] "U1"
           [ {| ob_id := "O1"; locationIds := ["U1"; "U7"] |};
             {| ob_id := "O2"; locationIds := ["U1"] |} ] 0 eq_refl)).
Defined.

(** ** Sending the cases *)

Lemma creations_activated_mono activated activated' tr :
  activated ⊆ activated' →
  creations_activated activated tr → creations_activated activated' tr.
Proof.
  revert activated activated'.
  induction tr as [|[[| |o c]|[|u o|] []] tr IH]; intros A A' Hsub; simpl; eauto.
  - intros [Hin H]. split; [by apply Hsub|by eapply IH].
  - apply IH. intros x [->|Hx]%elem_of_cons; [left|right; by apply Hsub].
Qed.

Lemma creations_activated_app activated tr1 tr2 :
  creations_activated activated tr1 → creations_activated activated tr2 →
  creations_activated activated (tr1 ++ tr2)%list.
Proof.
  revert activated.
  induction tr1 as [|[[| |o c]|[|u o|] []] tr1 IH]; intros A; simpl; eauto.
  - intros [Hin H1] H2. split; [done|by apply IH].
  - intros H1 H2. apply IH; [done|].
    eapply creations_activated_mono; [|done]. intros x Hx. by right.
Qed.

Lemma creations_activated_sound activated tr :
  creations_activated activated tr →
  ∀ pre post outbreak case_,
    tr = (pre ++ Issued (CreateOutbreakCase outbreak case_) :: post)%list →
    outbreak ∈ activated ∨
    ∃ userId, Settled (ActivateOutbreakForUser userId outbreak) true ∈ pre.
Proof.
  revert activated. induction tr as [|e tr IH]; intros A Hca pre post o c Heq.
  { by destruct pre. }
  destruct pre as [|e' pre]; simpl in Heq; injection Heq as -> ->.
  { simpl in Hca. left. apply Hca. }
  assert (∀ A', creations_activated A' (pre ++ Issued (CreateOutbreakCase o c) :: post) →
            o ∈ A' ∨ ∃ u, Settled (ActivateOutbreakForUser u o) true ∈ e' :: pre) as Hrest.
  { intros A' H'. destruct (IH A' H' pre post o c eq_refl) as [?|[u Hu]]; [by left|].
    right. exists u. by right. }
  destruct e' as [[| |o' c']|[|u o'|] []]; simpl in Hca; try by apply Hrest.
  - destruct Hca as [_ Hca]. by apply Hrest.
  - destruct (Hrest _ Hca) as [[->|Hin]%elem_of_cons|?]; [|by left|by right].
    right. exists u. left.
Qed.

Section CaseSender_order.
Context {Server : Type} (godata : GoData Server).
Variable allPromises : list bool → bool.
Variable forIn : gmap string (list obj) → list string.

Lemma createOutbreakCases_creations activated outbreak cases s :
  outbreak ∈ activated →
  creations_activated activated (createOutbreakCases godata outbreak cases s).1.1.
Proof.
  intros Hin. revert s. induction cases as [|case_ cases IH]; intros s; simpl; [done|].
  destruct (createOutbreakCase godata _ _ s) as [s1 ok].
  specialize (IH s1). destruct (createOutbreakCases godata outbreak cases s1) as [[tr oks] s2].
  simpl in *. done.
Qed.

Lemma createOutbreakCases_no_login outbreak cases s :
  Issued Login ∉ (createOutbreakCases godata outbreak cases s).1.1.
Proof.
  revert s. induction cases as [|case_ cases IH]; intros s; simpl.
  { apply not_elem_of_nil. }
  destruct (createOutbreakCase godata _ _ s) as [s1 ok].
  specialize (IH s1). destruct (createOutbreakCases godata outbreak cases s1) as [[tr oks] s2].
  simpl in *. apply not_elem_of_cons. done.
Qed.

Lemma sendOutbreaks_creations activated userId outbreaks keys s :
  creations_activated activated (sendOutbreaks godata allPromises userId outbreaks keys s).1.1.
Proof.
  revert activated s. induction keys as [|outbreak keys IH]; intros A s; simpl; [done|].
  destruct (activateOutbreakForUser godata _ _ s) as [s1 []]; [|done].
  destruct (outbreaks !! outbreak) as [cases|]; [|done].
  pose proof (createOutbreakCases_creations (outbreak :: A) outbreak cases s1) as Hc.
  destruct (createOutbreakCases godata outbreak cases s1) as [[tr1 oks] s2].
  simpl in Hc. destruct (allPromises oks).
  - specialize (IH (outbreak :: A) s2).
    destruct (sendOutbreaks godata allPromises userId outbreaks keys s2) as [[tr2 done'] s3].
    simpl in *. apply creations_activated_app; [apply Hc; left|done].
  - simpl. apply Hc. left.
Qed.

Lemma sendOutbreaks_no_login userId outbreaks keys s :
  Issued Login ∉ (sendOutbreaks godata allPromises userId outbreaks keys s).1.1.
Proof.
  revert s. induction keys as [|outbreak keys IH]; intros s; simpl.
  { apply not_elem_of_nil. }
  destruct (activateOutbreakForUser godata _ _ s) as [s1 []];
    [|simpl; rewrite !not_elem_of_cons; split_and!; [done|done|apply not_elem_of_nil]].
  destruct (outbreaks !! outbreak) as [cases|];
    [|simpl; rewrite !not_elem_of_cons; split_and!; [done|done|apply not_elem_of_nil]].
  pose proof (createOutbreakCases_no_login outbreak cases s1) as Hc.
  destruct (createOutbreakCases godata outbreak cases s1) as [[tr1 oks] s2].
  simpl in Hc. destruct (allPromises oks).
  - specialize (IH s2).
    destruct (sendOutbreaks godata allPromises userId outbreaks keys s2) as [[tr2 done'] s3].
    simpl in *. rewrite !not_elem_of_cons, not_elem_of_app. done.
  - simpl. rewrite !not_elem_of_cons. done.
Qed.

(** C4: in every run of sendCasesToGoData, whatever the client answers,
    every createOutbreakCase call for an outbreak is issued after an
    activateOutbreakForUser call for that same outbreak has resolved; and
    login is the first call, is issued exactly once, and has resolved before
    any activation is issued. *)
Theorem sendCasesToGoData_order cases s :
  activation_before_creation (sendCasesToGoData godata allPromises forIn cases s).1.1 ∧
  login_once_first (sendCasesToGoData godata allPromises forIn cases s).1.1.
Proof.
  unfold sendCasesToGoData.
  destruct (login godata s) as [s1 [userId|]].
  - set (outbreaks := reduceBy _ cases).
    pose proof (sendOutbreaks_creations [] userId outbreaks (forIn outbreaks) s1) as Hc.
    pose proof (sendOutbreaks_no_login userId outbreaks (forIn outbreaks) s1) as Hl.
    destruct (sendOutbreaks godata allPromises userId outbreaks (forIn outbreaks) s1)
      as [[tr done'] s2].
    simpl in *. split.
    + intros pre post o c Heq.
      destruct (creations_activated_sound [] (Issued Login :: Settled Login true :: tr)
                  Hc pre post o c Heq) as [Hin|Hact]; [|done].
      by apply elem_of_nil in Hin.
    + eexists. split; [done|]. split.
      * rewrite not_elem_of_cons. done.
      * intros [|e1 [|e2 pre]] post u o Heq; simpl in Heq; simplify_eq.
        right. left.
  - simpl. split.
    + intros [|e1 [|e2 [|e3 pre]]] post o c Heq; simpl in Heq; simplify_eq.
    + eexists. split; [done|]. split.
      * rewrite not_elem_of_cons. split; [done|apply not_elem_of_nil].
      * intros [|e1 [|e2 [|e3 pre]]] post u o Heq; simpl in Heq; simplify_eq.
Qed.
End CaseSender_order.

(* a run against a client that accepts every call and counts them: the
   cases of O1 follow the activation of O1, those of O2 that of O2 *)
Example sendCasesToGoData_run :
  sendCasesToGoData
    {| login := λ n, (S n, Some "user");
       activateOutbreakForUser := λ _ _ n, (S n, true);
       createOutbreakCase := λ _ _ n, (S n, true) |}
    (forallb id) (λ outbreaks, (map_to_list outbreaks).*1)
    [ {[ "outbreak" := FStr "O1"; "id" := FStr "a" ]};
      {[ "outbreak" := FStr "O2"; "id" := FStr "b" ]};
      {[ "outbreak" := FStr "O1"; "id" := FStr "c" ]} ] 0
  = ([ Issued Login; Settled Login true;
       Issued (ActivateOutbreakForUser "user" "O1");
       Settled (ActivateOutbreakForUser "user" "O1") true;
       Issued (CreateOutbreakCase "O1" {[ "id" := FStr "a" ]});
       Issued (CreateOutbreakCase "O1" {[ "id" := FStr "c" ]});
       Issued (ActivateOutbreakForUser "user" "O2");
       Settled (ActivateOutbreakForUser "user" "O2") true;
       Issued (CreateOutbreakCase "O2" {[ "id" := FStr "b" ]}) ], true, 6).
Proof. vm_compute. reflexivity. Qed.

(* a rejected activation ends the run: no case is created *)
Example sendCasesToGoData_rejected :
  sendCasesToGoData
    {| login := λ n, (S n, Some "user");
       activateOutbreakForUser := λ _ _ n, (S n, false);
       createOutbreakCase := λ _ _ n, (S n, true) |}
    (forallb id) (λ outbreaks, (map_to_list outbreaks).*1)
    [ {[ "outbreak" := FStr "O1"; "id" := FStr "a" ]} ] 0
  = ([ Issued Login; Settled Login true;
       Issued (ActivateOutbreakForUser "user" "O1");
       Settled (ActivateOutbreakForUser "user" "O1") false ], false, 2).
Proof. vm_compute. reflexivity. Qed.

(** * Further properties *)

(** ** Outbreak assignment: the walk up the organisation units *)









(** X4: the index that assignOutbreak builds has a bucket for a key exactly
    when some outbreak has that key as its first location; the bucket is
    never empty and holds the outbreaks with that first location, in the
    order of the outbreak list.  The other locations of an outbreak are not
    keys for it. *)
Theorem locationsAvaliable_bucket outbreaks k bucket :
  locationsAvaliable outbreaks !! k = Some bucket ↔
  bucket = filter (λ o, firstLocation o = k) outbreaks ∧ bucket ≠ [].
Proof.
  unfold locationsAvaliable. rewrite reduceBy_lookup. split.
  - destruct (filter _ outbreaks) as [|o l]; [done|]. by intros [= <-].
  - intros [-> Hne]. by destruct (filter _ outbreaks).
Qed.



(** X6: an outbreak without locations is indexed under the key that
    undefined is coerced to, and so is the key of an instance without
    orgUnit: assignOutbreak gives such an instance the first outbreak of the
    list that has no location, and throws a TypeError when every outbreak
    has one. *)
Theorem assignOutbreak_no_orgUnit fuel outbreaks orgUnits (te : obj) :
  te !! "orgUnit" = None →
  assignOutbreak fuel outbreaks orgUnits te =
  match find (propEq firstLocation "undefined") outbreaks with
  | Some o => Some (Ok (<["outbreak" := FStr (ob_id o)]> te))
  | None => Some TypeError
  end.
Proof.
  intros Hte. unfold assignOutbreak. rewrite Hte. simpl.
  destruct (locationsAvaliable outbreaks !! "undefined") as [bucket|] eqn:Hb.
  - destruct (reduceBy_lookup_Some _ _ _ _ Hb) as (_ & Hhead & [o Ho]).
    rewrite <- Hhead, Ho. done.
  - unfold locationsAvaliable in Hb. rewrite reduceBy_lookup in Hb.
    destruct (find _ outbreaks) as [o|] eqn:Hf; [|done].
    apply find_some in Hf as [Hin Hk]. apply bool_decide_eq_true in Hk.
    assert (o ∈ filter (λ o', firstLocation o' = "undefined") outbreaks) as Ho.
    { apply list_elem_of_filter. split; [done|by apply list_elem_of_In]. }
    destruct (filter _ outbreaks); [by apply elem_of_nil in Ho|done].
Qed.

Lemma assignOutbreak_no_orgUnit_witness :
  assignOutbreak 1
    [ {| ob_id := "O1"; locationIds := ["U1"] |}; {| ob_id := "O2"; locationIds := [] |} ]
    [] (∅ : obj)
  = Some (Ok (<["outbreak" := FStr "O2"]> ∅)).
Proof.
  exact (assignOutbreak_no_orgUnit 1
           [ {| ob_id := "O1"; locationIds := ["U1"] |};
             {| ob_id := "O2"; locationIds := [] |} ] [] ∅ eq_refl).
Defined.

(** ** Event enrichment *)

(** X7: findAndTransformEvent reads the first event of the program stage
    only: the events after it, of the same stage or not, change nothing; and
    the data values of that event come back in their order with their
    dataElement and value unchanged. *)
Theorem findAndTransformEvent_first_event dataElements programID pre e post :
  no_event_for programID pre →
  programStage e = programID →
  findAndTransformEvent dataElements programID (pre ++ e :: post)%list
  = findAndTransformEvent dataElements programID [e] ∧
  dataElement <$> findAndTransformEvent dataElements programID (pre ++ e :: post)%list
  = dataElement <$> default [] (dataValues e) ∧
  value <$> findAndTransformEvent dataElements programID (pre ++ e :: post)%list
  = value <$> default [] (dataValues e).
Proof.
  intros Hpre He.
  assert (find (propEq programStage programID) (pre ++ e :: post) = Some e) as Hfind.
  { induction pre as [|x pre IH]; simpl.
    - unfold propEq. by rewrite bool_decide_eq_true_2.
    - unfold propEq at 1. rewrite bool_decide_eq_false_2; [|apply Hpre; left].
      apply IH. intros y Hy. apply Hpre. by right. }
  assert (find (propEq programStage programID) [e] = Some e) as Hone.
  { simpl. unfold propEq. by rewrite bool_decide_eq_true_2. }
  unfold findAndTransformEvent. rewrite Hfind, Hone.
  split_and!; [done| |]; rewrite <- list_fmap_compose; by apply list_fmap_ext.
Qed.

Lemma findAndTransformEvent_first_event_witness :
  findAndTransformEvent [] "lab"
    [ {| programStage := "exam"; dataValues := Some [] |};
      {| programStage := "lab";
         dataValues := Some [ {| dataElement := "A"; value := "x"; displayName := None |} ] |};
      {| programStage := "lab"; dataValues := Some [] |} ]
  = findAndTransformEvent [] "lab"
      [ {| programStage := "lab";
           dataValues := Some [ {| dataElement := "A"; value := "x"; displayName := None |} ] |} ].
Proof.
  refine (proj1 (findAndTransformEvent_first_event [] "lab"
                   [ {| programStage := "exam"; dataValues := Some [] |} ]
                   {| programStage := "lab";
                      dataValues := Some [ {| dataElement := "A"; value := "x";
                                              displayName := None |} ] |}
                   [ {| programStage := "lab"; dataValues := Some [] |} ] _ eq_refl)).
  intros e He. apply list_elem_of_singleton in He. rewrite He. discriminate.
Defined.

(** X8: the displayName that findAndTransformEvent gives a data value is the
    displayName of the first data element of the catalog with the data
    value's dataElement as id; a data value whose data element the catalog
    does not have gets an undefined displayName, and no error is raised. *)
Theorem findAndTransformEvent_displayName dataElements programID events dv name :
  dv ∈ findAndTransformEvent dataElements programID events →
  displayName dv = Some name ↔
  ∃ pre de post, dataElements = (pre ++ de :: post)%list ∧
                 de_id de = dataElement dv ∧
                 (∀ x, x ∈ pre → de_id x ≠ dataElement dv) ∧
                 de_displayName de = Some name.
Proof.
  unfold findAndTransformEvent. intros (dv0 & -> & _)%list_elem_of_fmap. simpl.
  generalize (dataElement dv0). intros d. unfold propEq.
  induction dataElements as [|x des IH]; simpl.
  - split; [done|]. intros (pre & de & post & Heq & _). by destruct pre.
  - case_bool_decide as Hx.
    + simpl. split.
      * intros Hn. exists [], x, des. split_and!; [done|done| |done].
        by intros ? ?%elem_of_nil.
      * intros (pre & de & post & Heq & Hid & Hpre & Hn).
        destruct pre as [|y pre]; simpl in Heq; injection Heq as Hxy Hdes; subst; [done|].
        exfalso. eapply Hpre; [left|done].
    + rewrite IH. split.
      * intros (pre & de & post & -> & Hid & Hpre & Hn).
        exists (x :: pre), de, post. split_and!; [done|done| |done].
        intros y [->|Hy]%elem_of_cons; auto.
      * intros (pre & de & post & Heq & Hid & Hpre & Hn).
        destruct pre as [|y pre]; simpl in Heq; injection Heq as Hxy Hdes; subst; [done|].
        exists pre, de, post. split_and!; [done|done| |done].
        intros z Hz. apply Hpre. by right.
Qed.

Lemma findAndTransformEvent_displayName_witness :
  displayName {| dataElement := "A"; value := "x"; displayName := Some "Test result" |}
  = Some "Test result" ↔
  ∃ pre de post,
    [ {| de_id := "B"; de_displayName := Some "Other" |};
      {| de_id := "A"; de_displayName := Some "Test result" |} ] = (pre ++ de :: post)%list ∧
    de_id de = "A" ∧ (∀ x, x ∈ pre → de_id x ≠ "A") ∧
    de_displayName de = Some "Test result".
Proof.
  apply (findAndTransformEvent_displayName
           [ {| de_id := "B"; de_displayName := Some "Other" |};
             {| de_id := "A"; de_displayName := Some "Test result" |} ]
           "lab"
           [ {| programStage := "lab";
                dataValues := Some [ {| dataElement := "A"; value := "x";
                                        displayName := None |} ] |} ]
           {| dataElement := "A"; value := "x"; displayName := Some "Test result" |}).
  left.
Defined.

(** X9: an enrichment overwrites what an earlier one stored under the same
    field name: after addEvent for one stage id and then for another, under
    one name that is not events, the field holds the data values of the
    second stage, as if the first enrichment had not run. *)
Theorem addEvent_overwrites dataElements eventName id1 id2 (te : obj) :
  eventName ≠ "events" →
  addEvent dataElements eventName id1 te ≫= addEvent dataElements eventName id2
  = addEvent dataElements eventName id2 te.
Proof.
  intros Hne. unfold addEvent.
  destruct (te_events te) as [events|] eqn:He; simpl; [|done].
  rewrite te_events_insert_ne, He by done. simpl.
  by rewrite insert_insert_eq.
Qed.

Lemma addEvent_overwrites_witness :
  addEvent [] "labResultStage" "s1" ({[ "events" := FEvents [] ]} : obj)
    ≫= addEvent [] "labResultStage" "s2"
  = addEvent [] "labResultStage" "s2" ({[ "events" := FEvents [] ]} : obj).
Proof.
  apply (addEvent_overwrites [] "labResultStage" "s1" "s2"). discriminate.
Defined.

(** ** The pipeline of addLabInformation, on any instance *)


(* the closed form of the pipeline for whatever te.events holds *)
Lemma addLabInformation_closed_events i1 i2 i3 i4 dataElements conds (te : obj) events :
  te_events te = Ok events →
  let requests := findAndTransformEvent dataElements i2 events in
  let results := findAndTransformEvent dataElements i3 events in
  let positive := forallb (λ '(d, v), checkDataValue results d v) conds in
  addLabInformation (i1, i2, i3, i4) dataElements conds te =
  Ok (<["caseClassification" :=
          FStr (if positive then "CONFIRMED"
                else if bool_decide (results ≠ []) then "NOT_A_CASE_DISCARDED"
                else if bool_decide (requests ≠ []) then "PROBABLE"
                else "SUSPECT")]>
      (<["labResult" := FStr (if positive then "POSITIVE" else "NEGATIVE")]>
       (<["symptoms" := FDataValues (findAndTransformEvent dataElements i4 events)]>
        (<["labResultStage" := FDataValues results]>
         (<["labRequestStage" := FDataValues requests]>
          (<["clinicalExamination" :=
               FDataValues (findAndTransformEvent dataElements i1 events)]> te)))))).
Proof.
  intros Hte requests results positive.
  unfold addLabInformation, addEvent. rewrite Hte. simpl.
  rewrite te_events_insert_ne, Hte by done. simpl.
  rewrite !te_events_insert_ne, Hte by done. simpl.
  rewrite !te_events_insert_ne, Hte by done. simpl.
  fold requests results. rewrite addLabResult_sets.
  set (te4 := <["symptoms" := _]> _).
  assert (labResultStage_values te4 = results) as Hv.
  { unfold labResultStage_values, te4.
    rewrite lookup_insert_ne, lookup_insert_eq by done. done. }
  assert (checkDataValuesConditions conds te4 = positive) as ->.
  { unfold checkDataValuesConditions. by rewrite Hv. }
  rewrite (addCaseClassification_present _ results requests).
  - f_equal. f_equal. f_equal. rewrite lookup_insert_eq.
    destruct positive.
    + by rewrite decide_True.
    + rewrite decide_False by done.
      destruct (decide (results ≠ [])) as [Hr|Hr].
      * rewrite decide_True by done. by rewrite bool_decide_eq_true_2.
      * rewrite decide_False by tauto. rewrite (bool_decide_eq_false_2 _ Hr).
        by destruct (decide (requests ≠ [])); [rewrite bool_decide_eq_true_2
                                                |rewrite bool_decide_eq_false_2].
  - unfold te4. by rewrite lookup_insert_ne, lookup_insert_ne, lookup_insert_eq.
  - unfold te4.
    by rewrite lookup_insert_ne, lookup_insert_ne, lookup_insert_ne, lookup_insert_eq.
Qed.

Lemma forallb_checkDataValue results conds :
  forallb (λ '(d, v), checkDataValue results d v) conds = true ↔
  ∀ d v, (d, v) ∈ conds → ∃ dv, first_for results d dv ∧ value dv = v.
Proof.
  rewrite forallb_forall. split.
  - intros H d v Hin. apply checkDataValue_true.
    apply (H (d, v)). by apply list_elem_of_In.
  - intros H [d v] Hin. apply checkDataValue_true, H. by apply list_elem_of_In.
Qed.

(* the pipeline neither reads nor writes a field that is not one of its own *)
Lemma addLabInformation_insert_other programsIDs dataElements conds (te te' : obj) k v :
  k ≠ "events" → k ∉ stageFields → k ≠ "labResult" → k ≠ "caseClassification" →
  addLabInformation programsIDs dataElements conds te = Ok te' →
  addLabInformation programsIDs dataElements conds (<[k := v]> te) = Ok (<[k := v]> te').
Proof.
  intros Hev Hst Hlr Hcc. destruct programsIDs as [[[i1 i2] i3] i4].
  assert (k ≠ "clinicalExamination" ∧ k ≠ "labRequestStage" ∧
          k ≠ "labResultStage" ∧ k ≠ "symptoms") as (H1 & H2 & H3 & H4).
  { unfold stageFields in Hst. split_and!; intros ->; apply Hst; repeat constructor. }
  destruct (te_events te) as [events|] eqn:Hte.
  - rewrite (addLabInformation_closed_events _ _ _ _ _ _ _ _ Hte).
    rewrite (addLabInformation_closed_events _ _ _ _ _ _ _ events)
      by (by rewrite te_events_insert_ne).
    intros [= <-]. f_equal. apply map_eq. intros j.
    rewrite !lookup_insert. repeat case_decide; congruence.
  - unfold addLabInformation, addEvent. by rewrite Hte.
Qed.


(** X11: addLabInformation changes the four stage fields, labResult and
    caseClassification only: every other field of the instance, among them
    events, orgUnit and the outbreak assigned before, is in the result as it
    was. *)
Theorem addLabInformation_frame programsIDs dataElements conds (te te' : obj) k :
  addLabInformation programsIDs dataElements conds te = Ok te' →
  k ∉ stageFields → k ≠ "labResult" → k ≠ "caseClassification" →
  te' !! k = te !! k.
Proof.
  intros Hrun Hst Hlr Hcc. destruct programsIDs as [[[i1 i2] i3] i4].
  assert (k ≠ "clinicalExamination" ∧ k ≠ "labRequestStage" ∧
          k ≠ "labResultStage" ∧ k ≠ "symptoms") as (H1 & H2 & H3 & H4).
  { unfold stageFields in Hst. split_and!; intros ->; apply Hst; repeat constructor. }
  destruct (te_events te) as [events|] eqn:Hte.
  - rewrite (addLabInformation_closed_events _ _ _ _ _ _ _ _ Hte) in Hrun.
    injection Hrun as <-. by rewrite !lookup_insert_ne.
  - unfold addLabInformation, addEvent in Hrun. by rewrite Hte in Hrun.
Qed.

Lemma addLabInformation_frame_witness :
  (<["caseClassification" := FStr "SUSPECT"]>
   (<["labResult" := FStr "NEGATIVE"]>
    (<["symptoms" := FDataValues []]>
     (<["labResultStage" := FDataValues []]>
      (<["labRequestStage" := FDataValues []]>
       (<["clinicalExamination" := FDataValues []]>
        ({[ "events" := FEvents []; "outbreak" := FStr "O1" ]} : obj)))))))
    !! "outbreak"
  = ({[ "events" := FEvents []; "outbreak" := FStr "O1" ]} : obj) !! "outbreak".
Proof.
  apply (addLabInformation_frame ("ce", "lq", "lr", "sy") [] [("A", "x")]
           ({[ "events" := FEvents []; "outbreak" := FStr "O1" ]} : obj)).
  - reflexivity.
  - unfold stageFields. intros H.
    repeat (apply elem_of_cons in H as [H|H]; [discriminate H|]).
    by apply elem_of_nil in H.
  - discriminate.
  - discriminate.
Defined.

(** X12: addLabInformation is idempotent: running the pipeline on its own
    result gives that result again, since it reads the events only, which it
    keeps, and overwrites the fields it writes. *)
Theorem addLabInformation_idempotent programsIDs dataElements conds (te : obj) :
  addLabInformation programsIDs dataElements conds te
    ≫= addLabInformation programsIDs dataElements conds
  = addLabInformation programsIDs dataElements conds te.
Proof.
  destruct programsIDs as [[[i1 i2] i3] i4].
  destruct (te_events te) as [events|] eqn:Hte.
  - rewrite (addLabInformation_closed_events _ _ _ _ _ _ _ _ Hte).
    unfold mbind, result_bind. cbv beta iota.
    rewrite (addLabInformation_closed_events _ _ _ _ _ _ _ events)
      by (by rewrite !te_events_insert_ne).
    f_equal. apply map_eq. intros k.
    destruct (decide (k = "caseClassification")) as [->|?];
      [by rewrite !lookup_insert_eq|rewrite !(lookup_insert_ne _ "caseClassification") by done].
    destruct (decide (k = "labResult")) as [->|?];
      [by rewrite !lookup_insert_eq|rewrite !(lookup_insert_ne _ "labResult") by done].
    destruct (decide (k = "symptoms")) as [->|?];
      [by rewrite !lookup_insert_eq|rewrite !(lookup_insert_ne _ "symptoms") by done].
    destruct (decide (k = "labResultStage")) as [->|?];
      [by rewrite !lookup_insert_eq|rewrite !(lookup_insert_ne _ "labResultStage") by done].
    destruct (decide (k = "labRequestStage")) as [->|?];
      [by rewrite !lookup_insert_eq|rewrite !(lookup_insert_ne _ "labRequestStage") by done].
    destruct (decide (k = "clinicalExamination")) as [->|?];
      [by rewrite !lookup_insert_eq
      |by rewrite !lookup_insert_ne by done].
  - unfold addLabInformation, addEvent. by rewrite Hte.
Qed.

(** X13: what addLabInformation decides, read off the events.  With the
    enriched data values of the lab-results stage and of the lab-request
    stage, and the conditions passing when for each of them the first data
    value of the lab results for its data element has the expected value:
    labResult is POSITIVE when the conditions pass and NEGATIVE when they do
    not, never unset; the classification is CONFIRMED exactly when they
    pass, NOT_A_CASE_DISCARDED exactly when they fail on non-empty lab
    results, PROBABLE exactly when they fail, the lab results are empty and
    the lab request is not, and SUSPECT exactly when they fail and both are
    empty. *)
Theorem addLabInformation_decision i1 i2 i3 i4 dataElements conds (te : obj) events :
  te !! "events" = Some (FEvents events) →
  let requests := findAndTransformEvent dataElements i2 events in
  let results := findAndTransformEvent dataElements i3 events in
  let pass := ∀ d v, (d, v) ∈ conds → ∃ dv, first_for results d dv ∧ value dv = v in
  ∃ te' r c,
    addLabInformation (i1, i2, i3, i4) dataElements conds te = Ok te' ∧
    te' !! "labResult" = Some (FStr r) ∧
    te' !! "caseClassification" = Some (FStr c) ∧
    (r = "POSITIVE" ↔ pass) ∧
    (r = "NEGATIVE" ↔ ¬ pass) ∧
    (c = "CONFIRMED" ↔ pass) ∧
    (c = "NOT_A_CASE_DISCARDED" ↔ ¬ pass ∧ results ≠ []) ∧
    (c = "PROBABLE" ↔ ¬ pass ∧ results = [] ∧ requests ≠ []) ∧
    (c = "SUSPECT" ↔ ¬ pass ∧ results = [] ∧ requests = []).
Proof.
  intros He requests results pass.
  rewrite (addLabInformation_closed _ _ _ _ _ _ _ _ He). fold requests results.
  pose proof (forallb_checkDataValue results conds) as Hpass. fold pass in Hpass.
  eexists _, _, _. split; [done|].
  split; [by rewrite lookup_insert_ne, lookup_insert_eq|].
  split; [by rewrite lookup_insert_eq|].
  destruct (forallb _ conds).
  - assert pass as Hp by by apply Hpass.
    split_and!; split; intros; try congruence; tauto.
  - assert (¬ pass) as Hp by (intros Hp; apply Hpass in Hp; discriminate).
    destruct (decide (results ≠ [])) as [Hr|Hr].
    + rewrite (bool_decide_eq_true_2 _ Hr).
      split_and!; split; intros; try congruence; tauto.
    + rewrite (bool_decide_eq_false_2 _ Hr).
      assert (results = []) as Hr'
        by (destruct (decide (results = [])); [done|by destruct Hr]).
      destruct (decide (requests ≠ [])) as [Hq|Hq].
      * rewrite (bool_decide_eq_true_2 _ Hq).
        split_and!; split; intros; try congruence; tauto.
      * rewrite (bool_decide_eq_false_2 _ Hq).
        assert (requests = []) as Hq'
          by (destruct (decide (requests = [])); [done|by destruct Hq]).
        split_and!; split; intros; try congruence; tauto.
Qed.

Lemma addLabInformation_decision_witness :
  ∃ (te' : obj) c,
    te' !! "caseClassification" = Some (FStr c) ∧
    (c = "NOT_A_CASE_DISCARDED" ↔
     ¬ (∀ d v, (d, v) ∈ [("A", "Positive")] →
          ∃ dv, first_for [ {| dataElement := "A"; value := "Negative"; displayName := None |} ]
                  d dv ∧ value dv = v) ∧
     [ {| dataElement := "A"; value := "Negative"; displayName := None |} ] ≠ []).
Proof.
  destruct (addLabInformation_decision "ce" "lq" "lr" "sy" [] [("A", "Positive")]
              ({[ "events" := FEvents
                    [ {| programStage := "lr";
                         dataValues := Some [ {| dataElement := "A"; value := "Negative";
                                                 displayName := None |} ] |} ] ]} : obj)
              [ {| programStage := "lr";
                   dataValues := Some [ {| dataElement := "A"; value := "Negative";
                                           displayName := None |} ] |} ])
    as (te' & r & c & _ & _ & Hc & _ & _ & _ & Hd & _); [reflexivity|].
  exists te', c. split; [exact Hc|exact Hd].
Defined.

(** X14: with an empty list of confirmed-test conditions every instance
    that has its events is given the lab result POSITIVE and the
    classification CONFIRMED, whatever its events hold. *)
Theorem addLabInformation_no_conditions programsIDs dataElements (te : obj) events :
  te !! "events" = Some (FEvents events) →
  ∃ te', addLabInformation programsIDs dataElements [] te = Ok te' ∧
         te' !! "labResult" = Some (FStr "POSITIVE") ∧
         te' !! "caseClassification" = Some (FStr "CONFIRMED").
Proof.
  intros He. destruct programsIDs as [[[i1 i2] i3] i4].
  rewrite (addLabInformation_closed _ _ _ _ _ _ _ _ He). simpl.
  eexists. split; [done|].
  split; [by rewrite lookup_insert_ne, lookup_insert_eq|by rewrite lookup_insert_eq].
Qed.

Lemma addLabInformation_no_conditions_witness :
  ∃ te', addLabInformation ("ce", "lq", "lr", "sy") [] []
           ({[ "events" := FEvents [ {| programStage := "lq"; dataValues := Some [] |} ] ]} : obj)
         = Ok te' ∧
         te' !! "labResult" = Some (FStr "POSITIVE") ∧
         te' !! "caseClassification" = Some (FStr "CONFIRMED").
Proof.
  exact (addLabInformation_no_conditions ("ce", "lq", "lr", "sy") []
           ({[ "events" := FEvents [ {| programStage := "lq"; dataValues := Some [] |} ] ]} : obj)
           [ {| programStage := "lq"; dataValues := Some [] |} ] eq_refl).
Defined.

(* assignOutbreak reads the orgUnit only and writes the outbreak only *)
Lemma assignOutbreak_inv fuel outbreaks orgUnits (te te1 : obj) :
  assignOutbreak fuel outbreaks orgUnits te = Some (Ok te1) →
  ∃ v, te1 = <["outbreak" := v]> te ∧
       ∀ te' : obj, te' !! "orgUnit" = te !! "orgUnit" →
         assignOutbreak fuel outbreaks orgUnits te' = Some (Ok (<["outbreak" := v]> te')).
Proof.
  intros H.
  assert (∃ v, te1 = <["outbreak" := v]> te) as [v ->].
  { unfold assignOutbreak in H. cbv zeta in H.
    match type of H with
    | match ?f with _ => _ end = _ => destruct f as [[id|]| |]
    end; simplify_eq; eauto. }
  exists v. split; [done|]. intros te' Heq.
  revert H. unfold assignOutbreak. cbv zeta. rewrite Heq.
  match goal with
  | |- match ?f with _ => _ end = _ → _ => destruct f as [[id|]| |]
  end; try done; intros [= Hm]; apply (f_equal (λ m : obj, m !! "outbreak")) in Hm;
    rewrite !lookup_insert_eq in Hm; by simplify_eq.
Qed.

(** X15: assigning the outbreak and adding the lab information are
    independent, as the two maps of copyCases may run in either order: when
    both return on an instance, each returns on the result of the other, and
    the two orders give the same instance. *)
Theorem assignOutbreak_addLabInformation_commute fuel outbreaks orgUnits
    programsIDs dataElements conds (te te1 te2 : obj) :
  assignOutbreak fuel outbreaks orgUnits te = Some (Ok te1) →
  addLabInformation programsIDs dataElements conds te = Ok te2 →
  ∃ te12, addLabInformation programsIDs dataElements conds te1 = Ok te12 ∧
          assignOutbreak fuel outbreaks orgUnits te2 = Some (Ok te12).
Proof.
  intros (v & -> & Hassign)%assignOutbreak_inv Hlab.
  exists (<["outbreak" := v]> te2). split.
  - apply addLabInformation_insert_other; try done.
    unfold stageFields. intros H.
    repeat (apply elem_of_cons in H as [H|H]; [discriminate H|]).
    by apply elem_of_nil in H.
  - apply Hassign. destruct programsIDs as [[[i1 i2] i3] i4].
    destruct (te_events te) as [events|] eqn:Hte.
    + rewrite (addLabInformation_closed_events _ _ _ _ _ _ _ _ Hte) in Hlab.
      injection Hlab as <-. by rewrite !lookup_insert_ne.
    + unfold addLabInformation, addEvent in Hlab. by rewrite Hte in Hlab.
Qed.

Lemma assignOutbreak_addLabInformation_commute_witness :
  ∃ te12,
    addLabInformation ("ce", "lq", "lr", "sy") [] [("A", "x")]
      (<["outbreak" := FStr "O1"]> {[ "orgUnit" := FStr "U1"; "events" := FEvents [] ]}) = Ok te12 ∧
    assignOutbreak 1 [ {| ob_id := "O1"; locationIds := ["U1"] |} ] []
      (<["caseClassification" := FStr "SUSPECT"]>
       (<["labResult" := FStr "NEGATIVE"]>
        (<["symptoms" := FDataValues []]>
         (<["labResultStage" := FDataValues []]>
          (<["labRequestStage" := FDataValues []]>
           (<["clinicalExamination" := FDataValues []]>
            {[ "orgUnit" := FStr "U1"; "events" := FEvents [] ]}))))))
    = Some (Ok te12).
Proof.
  apply (assignOutbreak_addLabInformation_commute 1
           [ {| ob_id := "O1"; locationIds := ["U1"] |} ] []
           ("ce", "lq", "lr", "sy") [] [("A", "x")]
           ({[ "orgUnit" := FStr "U1"; "events" := FEvents [] ]} : obj));
    reflexivity.
Defined.

(** ** Lab result and case classification, one function at a time *)

Lemma checkDataValuesConditions_insert_ne conds (te : obj) k v :
  k ≠ "labResultStage" →
  checkDataValuesConditions conds (<[k := v]> te) = checkDataValuesConditions conds te.
Proof.
  intros Hk. unfold checkDataValuesConditions, labResultStage_values.
  by rewrite lookup_insert_ne.
Qed.

(** X16: addLabResult does not read the labResult it finds: applied after
    another addLabResult, with the same conditions or others, it gives what
    it gives alone; in particular it is idempotent. *)
Theorem addLabResult_last_wins conds1 conds2 (te : obj) :
  addLabResult conds2 (addLabResult conds1 te) = addLabResult conds2 te.
Proof.
  rewrite !addLabResult_sets, checkDataValuesConditions_insert_ne by done.
  by rewrite insert_insert_eq.
Qed.

(** X17: the conditions are a conjunction: two condition lists with the
    same members, in whatever order and however often repeated, give the
    same lab result. *)
Theorem addLabResult_same_conditions conds conds' (te : obj) :
  (∀ c, c ∈ conds ↔ c ∈ conds') →
  addLabResult conds te = addLabResult conds' te.
Proof.
  intros Hsame. rewrite !addLabResult_sets.
  assert (checkDataValuesConditions conds te = checkDataValuesConditions conds' te) as ->;
    [|done].
  apply eq_true_iff_eq. rewrite !checkDataValuesConditions_true.
  split; intros H d v Hin; apply H; by apply Hsame.
Qed.

Lemma addLabResult_same_conditions_witness :
  addLabResult [("A", "x"); ("B", "y")] (∅ : obj)
  = addLabResult [("B", "y"); ("A", "x"); ("B", "y")] (∅ : obj).
Proof.
  apply (addLabResult_same_conditions [("A", "x"); ("B", "y")]
           [("B", "y"); ("A", "x"); ("B", "y")]).
  intros c. rewrite !elem_of_cons. tauto.
Defined.

(** X18: on an instance that has no labResultStage, addLabResult raises no
    error: no condition can be met, and the lab result is NEGATIVE, unless
    there is no condition, in which case it is POSITIVE. *)
Theorem addLabResult_without_stage conds (te : obj) :
  te !! "labResultStage" = None ∨ te !! "labResultStage" = Some FUndefined →
  addLabResult conds te =
  <["labResult" := FStr (if bool_decide (conds = []) then "POSITIVE" else "NEGATIVE")]> te.
Proof.
  intros Hs. rewrite addLabResult_sets, checkDataValuesConditions_empty_stage; [done|].
  unfold labResultStage_values. by destruct Hs as [-> | ->].
Qed.

Lemma addLabResult_without_stage_witness :
  addLabResult [("A", "x")] ({[ "events" := FEvents [] ]} : obj)
  = <["labResult" := FStr "NEGATIVE"]> {[ "events" := FEvents [] ]}.
Proof.
  apply (addLabResult_without_stage [("A", "x")] ({[ "events" := FEvents [] ]} : obj)).
  left. reflexivity.
Defined.

(* a POSITIVE lab result is classified without the stages being read *)
Lemma addCaseClassification_positive (te : obj) :
  te !! "labResult" = Some (FStr "POSITIVE") →
  addCaseClassification te = Ok (<["caseClassification" := FStr "CONFIRMED"]> te).
Proof.
  intros Hp. unfold addCaseClassification.
  by rewrite labResult_is_decide, bool_decide_eq_true_2.
Qed.

(** X19: when addCaseClassification throws.  It raises a TypeError exactly
    when the lab result is not POSITIVE and either the lab result is
    NEGATIVE and labResultStage is undefined, or the instance is not
    discarded (NEGATIVE with a non-empty labResultStage) and labRequestStage
    is undefined. *)
Theorem addCaseClassification_throws_iff (te : obj) :
  addCaseClassification te = TypeError ↔
  te !! "labResult" ≠ Some (FStr "POSITIVE") ∧
  ((te !! "labResult" = Some (FStr "NEGATIVE") ∧
    length_gt_0 (te !! "labResultStage") = TypeError) ∨
   (¬ (te !! "labResult" = Some (FStr "NEGATIVE") ∧
       length_gt_0 (te !! "labResultStage") = Ok true) ∧
    length_gt_0 (te !! "labRequestStage") = TypeError)).
Proof.
  unfold addCaseClassification. rewrite !labResult_is_decide.
  destruct (decide (te !! "labResult" = Some (FStr "POSITIVE"))) as [Hp|Hp].
  { rewrite (bool_decide_eq_true_2 _ Hp). simpl. split; [done|tauto]. }
  rewrite (bool_decide_eq_false_2 _ Hp).
  destruct (decide (te !! "labResult" = Some (FStr "NEGATIVE"))) as [Hn|Hn].
  - rewrite (bool_decide_eq_true_2 _ Hn).
    destruct (length_gt_0 (te !! "labResultStage")) as [[]|]; simpl.
    + split; [done|]. intros [_ [[_ ?]|[H _]]]; [done|]. destruct H. done.
    + destruct (length_gt_0 (te !! "labRequestStage")) as [[]|]; simpl.
      * split; [done|]. intros [_ [[_ ?]|[_ ?]]]; done.
      * split; [done|]. intros [_ [[_ ?]|[_ ?]]]; done.
      * split; [|done]. intros _. split; [done|]. right. split; [|done].
        intros [_ ?]. done.
    + split; [|done]. intros _. split; [done|]. by left.
  - rewrite (bool_decide_eq_false_2 _ Hn). simpl.
    destruct (length_gt_0 (te !! "labRequestStage")) as [[]|]; simpl.
    + split; [done|]. intros [_ [[? _]|[_ ?]]]; done.
    + split; [done|]. intros [_ [[? _]|[_ ?]]]; done.
    + split; [|done]. intros _. split; [done|]. right. split; [|done]. tauto.
Qed.

(** X20: a lab result that is neither POSITIVE nor NEGATIVE (unset, or any
    other value) is classified by the lab request alone: PROBABLE when
    labRequestStage is not empty, SUSPECT when it is; labResultStage is not
    read and may be missing. *)
Theorem addCaseClassification_other_result (te : obj) requests :
  te !! "labResult" ≠ Some (FStr "POSITIVE") →
  te !! "labResult" ≠ Some (FStr "NEGATIVE") →
  te !! "labRequestStage" = Some (FDataValues requests) →
  addCaseClassification te =
  Ok (<["caseClassification" :=
          FStr (if bool_decide (requests ≠ []) then "PROBABLE" else "SUSPECT")]> te).
Proof.
  intros Hp Hn Hq. unfold addCaseClassification.
  rewrite !labResult_is_decide, !bool_decide_eq_false_2, Hq by done. done.
Qed.

Lemma addCaseClassification_other_result_witness :
  addCaseClassification
    ({[ "labResult" := FStr "INCONCLUSIVE";
        "labRequestStage" :=
          FDataValues [ {| dataElement := "A"; value := "x"; displayName := None |} ] ]} : obj)
  = Ok (<["caseClassification" := FStr "PROBABLE"]>
          {[ "labResult" := FStr "INCONCLUSIVE";
             "labRequestStage" :=
               FDataValues [ {| dataElement := "A"; value := "x"; displayName := None |} ] ]}).
Proof.
  apply (addCaseClassification_other_result
           ({[ "labResult" := FStr "INCONCLUSIVE";
               "labRequestStage" :=
                 FDataValues [ {| dataElement := "A"; value := "x";
                                  displayName := None |} ] ]} : obj)
           [ {| dataElement := "A"; value := "x"; displayName := None |} ]).
  - discriminate.
  - discriminate.
  - reflexivity.
Defined.

Lemma addCaseClassification_insert_cc (te : obj) v :
  addCaseClassification (<["caseClassification" := v]> te) = addCaseClassification te.
Proof.
  unfold addCaseClassification, labResult_is. rewrite !lookup_insert_ne by done.
  destruct (if bool_decide (te !! "labResult" = Some (FStr "POSITIVE")) then _ else _);
    simpl; [|done].
  by rewrite insert_insert_eq.
Qed.

(** X21: addCaseClassification does not read the caseClassification it
    finds: the result is the same whatever the field held, and classifying a
    classified instance again changes nothing. *)
Theorem addCaseClassification_idempotent (te : obj) v :
  addCaseClassification (<["caseClassification" := v]> te) = addCaseClassification te ∧
  addCaseClassification te ≫= addCaseClassification = addCaseClassification te.
Proof.
  split; [apply addCaseClassification_insert_cc|].
  destruct (addCaseClassification te) as [te'|] eqn:Hrun; [|done].
  destruct (addCaseClassification_range _ _ Hrun) as (c & -> & _). simpl.
  by rewrite addCaseClassification_insert_cc.
Qed.

(** ** Sending the cases: what is sent, to whom, and when the run stops *)

Lemma creations_app tr1 tr2 : creations (tr1 ++ tr2) = (creations tr1 ++ creations tr2)%list.
Proof. apply omap_app. Qed.

Lemma activations_app tr1 tr2 :
  activations (tr1 ++ tr2) = (activations tr1 ++ activations tr2)%list.
Proof. apply omap_app. Qed.

Lemma creations_issued outbreak (cases : list obj) :
  creations ((λ c, Issued (CreateOutbreakCase outbreak (delete "outbreak" c))) <$> cases)
  = (λ c, (outbreak, delete "outbreak" c)) <$> cases.
Proof. unfold creations. induction cases as [|c cases IH]; simpl; [done|by f_equal]. Qed.

Lemma activations_issued outbreak (cases : list obj) :
  activations ((λ c, Issued (CreateOutbreakCase outbreak (delete "outbreak" c))) <$> cases)
  = [].
Proof. unfold activations. induction cases as [|c cases IH]; simpl; done. Qed.

Lemma rejection_ends_issued done outbreak (cases : list obj) tr :
  rejection_ends done tr →
  rejection_ends done
    (((λ c, Issued (CreateOutbreakCase outbreak (delete "outbreak" c))) <$> cases) ++ tr).
Proof. intros H. induction cases as [|c cases IH]; [done|]. simpl. exact IH. Qed.

Lemma rejection_ends_sound done tr :
  rejection_ends done tr →
  ∀ pre c post, tr = (pre ++ Settled c false :: post)%list → post = [] ∧ done = false.
Proof.
  intros H pre. revert tr H.
  induction pre as [|e pre IH]; intros tr H c post ->; simpl in H; [done|].
  destruct e as [c'|c' []]; try by eapply IH.
  destruct H as [H _]. by destruct pre.
Qed.

Lemma list_bind_ext_in {A B} (f g : A → list B) (l : list A) :
  (∀ x, x ∈ l → f x = g x) → l ≫= f = l ≫= g.
Proof.
  induction l as [|x l IH]; intros H; [done|].
  rewrite !bind_cons. f_equal; [apply H; left|].
  apply IH. intros y Hy. apply H. by right.
Qed.

(* a grouping is a partition: the buckets, taken key by key, hold the
   elements of the list once each *)
Lemma filter_keys_cons {A} (f : A → string) x (l : list A) (keys : list string) :
  NoDup keys → f x ∈ keys →
  keys ≫= (λ k, filter (λ y, f y = k) (x :: l)) ≡ₚ
  x :: (keys ≫= (λ k, filter (λ y, f y = k) l)).
Proof.
  induction keys as [|k keys IH]; intros Hnd Hin; [by apply elem_of_nil in Hin|].
  apply NoDup_cons in Hnd as [Hk Hnd]. rewrite !bind_cons.
  destruct (decide (f x = k)) as [Hx|Hx].
  - rewrite filter_cons_True by done. simpl.
    rewrite (list_bind_ext_in (λ k, filter (λ y, f y = k) (x :: l))
               (λ k, filter (λ y, f y = k) l) keys); [done|].
    intros k' Hk'. rewrite filter_cons_False; [done|].
    intros Heq. apply Hk. by rewrite <- Hx, Heq.
  - rewrite filter_cons_False by done.
    apply elem_of_cons in Hin as [?|Hin]; [done|].
    rewrite (IH Hnd Hin). by rewrite Permutation_middle.
Qed.

Lemma filter_keys_partition {A} (f : A → string) (l : list A) (keys : list string) :
  NoDup keys → (∀ x, x ∈ l → f x ∈ keys) →
  keys ≫= (λ k, filter (λ y, f y = k) l) ≡ₚ l.
Proof.
  intros Hnd. induction l as [|x l IH]; intros Hin.
  - assert (keys ≫= (λ k, filter (λ y : A, f y = k) []) = []) as ->; [|done].
    clear. induction keys as [|k keys IH]; [done|]. by rewrite bind_cons, IH.
  - rewrite filter_keys_cons; [|done|apply Hin; left].
    constructor. apply IH. intros y Hy. apply Hin. by right.
Qed.

Lemma reduceBy_default {A} (f : A → string) (l : list A) k :
  default [] (reduceBy f l !! k) = filter (λ y, f y = k) l.
Proof. rewrite reduceBy_lookup. by destruct (filter _ l). Qed.

Lemma reduceBy_partition {A} (f : A → string) (l : list A) (keys : list string) :
  keys ≡ₚ (map_to_list (reduceBy f l)).*1 →
  keys ≫= (λ k, default [] (reduceBy f l !! k)) ≡ₚ l.
Proof.
  intros ->.
  rewrite (list_bind_ext_in (λ k, default [] (reduceBy f l !! k))
             (λ k, filter (λ y, f y = k) l)) by (intros; apply reduceBy_default).
  apply filter_keys_partition; [apply NoDup_fst_map_to_list|].
  intros x Hx. apply list_elem_of_fmap.
  exists (f x, filter (λ y, f y = f x) l). split; [done|].
  apply elem_of_map_to_list. rewrite reduceBy_lookup.
  assert (x ∈ filter (λ y, f y = f x) l) as Hf by by apply list_elem_of_filter.
  destruct (filter _ l); [by apply elem_of_nil in Hf|done].
Qed.

Section CaseSender_sent.
Context {Server : Type} (godata : GoData Server).
Variable allPromises : list bool → bool.
Variable forIn : gmap string (list obj) → list string.

Lemma createOutbreakCases_trace outbreak cases s :
  (createOutbreakCases godata outbreak cases s).1.1
  = (λ c, Issued (CreateOutbreakCase outbreak (delete "outbreak" c))) <$> cases.
Proof.
  revert s. induction cases as [|case_ cases IH]; intros s; simpl; [done|].
  destruct (createOutbreakCase godata _ _ s) as [s1 ok].
  specialize (IH s1). destruct (createOutbreakCases godata outbreak cases s1) as [[tr oks] s2].
  simpl in *. by rewrite IH.
Qed.

(* the loop, outbreak by outbreak *)
Lemma sendOutbreaks_trace userId outbreaks keys s :
  let run := sendOutbreaks godata allPromises userId outbreaks keys s in
  rejection_ends run.1.2 run.1.1 ∧
  (∀ o c, (o, c) ∈ creations run.1.1 →
     ∃ bucket case_, outbreaks !! o = Some bucket ∧ case_ ∈ bucket ∧
                     c = delete "outbreak" case_) ∧
  (∀ u o, (u, o) ∈ activations run.1.1 → u = userId ∧ o ∈ keys) ∧
  (run.1.2 = true →
     activations run.1.1 = pair userId <$> keys ∧
     creations run.1.1 =
       keys ≫= (λ k, (λ c, (k, delete "outbreak" c)) <$> default [] (outbreaks !! k))).
Proof.
  revert s. induction keys as [|outbreak keys IH]; intros s; simpl.
  { refine (conj _ (conj _ (conj _ _))); [done| | |done]; intros ? ? ?%elem_of_nil; done. }
  destruct (activateOutbreakForUser godata _ _ s) as [s1 []]; simpl.
  2:{ unfold creations, activations. simpl.
      refine (conj _ (conj _ (conj _ _))); [done| | |done].
      - intros o c H. by apply elem_of_nil in H.
      - intros u o H. apply list_elem_of_singleton in H. injection H as -> ->.
        split; [done|left]. }
  destruct (outbreaks !! outbreak) as [cases|] eqn:Hb; simpl.
  2:{ unfold creations, activations. simpl.
      refine (conj _ (conj _ (conj _ _))); [done| | |done].
      - intros o c H. by apply elem_of_nil in H.
      - intros u o H. apply list_elem_of_singleton in H. injection H as -> ->.
        split; [done|left]. }
  pose proof (createOutbreakCases_trace outbreak cases s1) as Htr1.
  destruct (createOutbreakCases godata outbreak cases s1) as [[tr1 oks] s2].
  simpl in Htr1. subst tr1. destruct (allPromises oks).
  - specialize (IH s2).
    destruct (sendOutbreaks godata allPromises userId outbreaks keys s2) as [[tr2 done'] s3].
    simpl in *. destruct IH as (Hrej & Hcre & Hact & Hdone).
    change (creations (Issued (ActivateOutbreakForUser userId outbreak)
              :: Settled (ActivateOutbreakForUser userId outbreak) true :: ?tr))
      with (creations tr).
    change (activations (Issued (ActivateOutbreakForUser userId outbreak)
              :: Settled (ActivateOutbreakForUser userId outbreak) true :: ?tr))
      with ((userId, outbreak) :: activations tr).
    rewrite creations_app, activations_app, creations_issued, activations_issued. simpl.
    refine (conj _ (conj _ (conj _ _))).
    + by apply rejection_ends_issued.
    + intros o c [(case_ & [= -> ->] & Hin)%list_elem_of_fmap|Hin]%elem_of_app; eauto.
    + intros u o [[= -> ->]|Hin]%elem_of_cons; [split; [done|left]|].
      destruct (Hact u o Hin) as [-> ?]. split; [done|by right].
    + intros Hd. destruct (Hdone Hd) as [-> ->]. done.
  - simpl.
    change (creations (Issued (ActivateOutbreakForUser userId outbreak)
              :: Settled (ActivateOutbreakForUser userId outbreak) true :: ?tr))
      with (creations tr).
    change (activations (Issued (ActivateOutbreakForUser userId outbreak)
              :: Settled (ActivateOutbreakForUser userId outbreak) true :: ?tr))
      with ((userId, outbreak) :: activations tr).
    rewrite creations_issued, activations_issued.
    refine (conj _ (conj _ (conj _ _))); [| | |done].
    + rewrite <- (app_nil_r (_ <$> cases)). by apply rejection_ends_issued.
    + intros o c (case_ & [= -> ->] & Hin)%list_elem_of_fmap. eauto.
    + intros u o [[= -> ->]|?%elem_of_nil]%elem_of_cons; [split; [done|left]|done].
Qed.

Lemma sendCasesToGoData_trace cases s :
  let outbreaks := reduceBy (λ case_ : obj, toKey (case_ !! "outbreak")) cases in
  let run := sendCasesToGoData godata allPromises forIn cases s in
  (∃ tr, run.1.1 = Issued Login :: Settled Login false :: tr ∧ tr = [] ∧
         (login godata s).2 = None ∧ run.1.2 = false) ∨
  (∃ userId s1,
     login godata s = (s1, Some userId) ∧
     run.1.1 = Issued Login :: Settled Login true ::
                 (sendOutbreaks godata allPromises userId outbreaks (forIn outbreaks) s1).1.1 ∧
     run.1.2 = (sendOutbreaks godata allPromises userId outbreaks (forIn outbreaks) s1).1.2).
Proof.
  intros outbreaks run. unfold run, sendCasesToGoData. fold outbreaks.
  destruct (login godata s) as [s1 [userId|]].
  - right. exists userId, s1.
    by destruct (sendOutbreaks godata allPromises userId outbreaks (forIn outbreaks) s1)
      as [[tr done'] s2].
  - left. by exists [].
Qed.

(** X22: sendCasesToGoData sends nothing but the cases it was given, each
    under the outbreak it holds and stripped of it: every creation call
    carries a case of the list without its outbreak field, for the outbreak
    that this field named. *)
Theorem sendCasesToGoData_sent cases s outbreak case_ :
  (outbreak, case_) ∈ creations (sendCasesToGoData godata allPromises forIn cases s).1.1 →
  case_ !! "outbreak" = None ∧ ∃ c, c ∈ cases ∧ sent c = (outbreak, case_).
Proof.
  destruct (sendCasesToGoData_trace cases s)
    as [(tr & -> & -> & _)|(userId & s1 & _ & -> & _)].
  { by intros ?%elem_of_nil. }
  change (creations (Issued Login :: Settled Login true :: ?tr)) with (creations tr).
  intros Hin.
  set (outbreaks := reduceBy (λ case_ : obj, toKey (case_ !! "outbreak")) cases) in *.
  destruct (sendOutbreaks_trace userId outbreaks (forIn outbreaks) s1) as (_ & Hcre & _).
  destruct (Hcre _ _ Hin) as (bucket & c & Hb & Hc & ->).
  split; [apply lookup_delete_eq|].
  apply reduceBy_lookup_Some in Hb as (-> & _).
  apply list_elem_of_filter in Hc as [Hkey Hc].
  exists c. split; [done|]. unfold sent. by rewrite Hkey.
Qed.

(** X23: when for..in enumerates the keys of the grouping, each once, and
    the run reaches its end, every case of the list has been sent exactly
    once (the creation calls are a permutation of the cases, each with the
    outbreak it held, and without it in the case sent), and the outbreaks
    have been activated once each, in the order of the enumeration, for the
    user that login resolved with. *)
Theorem sendCasesToGoData_complete cases s :
  forIn (reduceBy (λ case_ : obj, toKey (case_ !! "outbreak")) cases)
    ≡ₚ (map_to_list (reduceBy (λ case_ : obj, toKey (case_ !! "outbreak")) cases)).*1 →
  (sendCasesToGoData godata allPromises forIn cases s).1.2 = true →
  creations (sendCasesToGoData godata allPromises forIn cases s).1.1 ≡ₚ sent <$> cases ∧
  ∃ userId,
    (login godata s).2 = Some userId ∧
    activations (sendCasesToGoData godata allPromises forIn cases s).1.1
    = pair userId <$> forIn (reduceBy (λ case_ : obj, toKey (case_ !! "outbreak")) cases).
Proof.
  intros Hkeys.
  destruct (sendCasesToGoData_trace cases s)
    as [(tr & _ & _ & _ & ->)|(userId & s1 & Hlogin & -> & ->)]; [done|].
  intros Hdone.
  change (creations (Issued Login :: Settled Login true :: ?tr)) with (creations tr).
  change (activations (Issued Login :: Settled Login true :: ?tr)) with (activations tr).
  set (outbreaks := reduceBy (λ case_ : obj, toKey (case_ !! "outbreak")) cases) in *.
  destruct (sendOutbreaks_trace userId outbreaks (forIn outbreaks) s1) as (_ & _ & _ & Hd).
  destruct (Hd Hdone) as [-> ->]. split.
  - etransitivity;
      [|apply fmap_Permutation,
          (reduceBy_partition (λ case_ : obj, toKey (case_ !! "outbreak")) cases
             (forIn outbreaks) Hkeys)].
    fold outbreaks. clear Hkeys Hdone Hd. generalize (forIn outbreaks). intros keys.
    assert (keys ≫= (λ k, (λ c : obj, (k, delete "outbreak" c)) <$> default [] (outbreaks !! k))
            = sent <$> (keys ≫= (λ k, default [] (outbreaks !! k)))) as ->; [|done].
    induction keys as [|k keys IH]; [done|].
    rewrite !bind_cons, fmap_app, IH. f_equal.
    apply list_fmap_ext. intros i c Hc. unfold sent. f_equal.
    apply list_elem_of_lookup_2 in Hc. unfold outbreaks in Hc.
    rewrite reduceBy_default in Hc. apply list_elem_of_filter in Hc. symmetry. apply Hc.
  - exists userId. by rewrite Hlogin.
Qed.

(** X24: the run stops at the first rejection it awaits: a rejected login
    or activation is the last event of the run, nothing is called after it,
    and the loop over the outbreaks does not complete. *)
Theorem sendCasesToGoData_fail_fast cases s pre c post :
  (sendCasesToGoData godata allPromises forIn cases s).1.1
  = (pre ++ Settled c false :: post)%list →
  post = [] ∧ (sendCasesToGoData godata allPromises forIn cases s).1.2 = false.
Proof.
  apply rejection_ends_sound.
  destruct (sendCasesToGoData_trace cases s)
    as [(tr & -> & -> & _ & ->)|(userId & s1 & _ & -> & ->)]; [done|].
  simpl. apply (sendOutbreaks_trace userId _ _ s1).
Qed.

(** X25: every activation is issued for the user that login resolved with,
    and for a key of the grouping that for..in enumerated. *)
Theorem sendCasesToGoData_activations cases s userId outbreak :
  (userId, outbreak) ∈ activations (sendCasesToGoData godata allPromises forIn cases s).1.1 →
  (login godata s).2 = Some userId ∧
  outbreak ∈ forIn (reduceBy (λ case_ : obj, toKey (case_ !! "outbreak")) cases).
Proof.
  destruct (sendCasesToGoData_trace cases s)
    as [(tr & -> & -> & _)|(u & s1 & Hlogin & -> & _)].
  { by intros ?%elem_of_nil. }
  change (activations (Issued Login :: Settled Login true :: ?tr)) with (activations tr).
  intros Hin.
  set (outbreaks := reduceBy (λ case_ : obj, toKey (case_ !! "outbreak")) cases) in *.
  destruct (sendOutbreaks_trace u outbreaks (forIn outbreaks) s1) as (_ & _ & Hact & _).
  destruct (Hact _ _ Hin) as [-> Hk]. by rewrite Hlogin.
Qed.
End CaseSender_sent.

Lemma sendCasesToGoData_sent_witness :
  ({[ "id" := FStr "a" ]} : obj) !! "outbreak" = None ∧
  ∃ c : obj, c ∈ [ ({[ "outbreak" := FStr "O1"; "id" := FStr "a" ]} : obj);
                   {[ "outbreak" := FStr "O2"; "id" := FStr "b" ]} ] ∧
             sent c = ("O1", {[ "id" := FStr "a" ]}).
Proof.
  apply (sendCasesToGoData_sent
           {| login := λ n, (S n, Some "user");
              activateOutbreakForUser := λ _ _ n, (S n, true);
              createOutbreakCase := λ _ _ n, (S n, true) |}
           (forallb id) (λ outbreaks, (map_to_list outbreaks).*1)
           [ {[ "outbreak" := FStr "O1"; "id" := FStr "a" ]};
             {[ "outbreak" := FStr "O2"; "id" := FStr "b" ]} ] 0).
  vm_compute. left.
Defined.

Lemma sendCasesToGoData_complete_witness :
  creations
    (sendCasesToGoData
       {| login := λ n, (S n, Some "user");
          activateOutbreakForUser := λ _ _ n, (S n, true);
          createOutbreakCase := λ _ _ n, (S n, true) |}
       (forallb id) (λ outbreaks, (map_to_list outbreaks).*1)
       [ {[ "outbreak" := FStr "O1"; "id" := FStr "a" ]};
         {[ "outbreak" := FStr "O2"; "id" := FStr "b" ]};
         {[ "outbreak" := FStr "O1"; "id" := FStr "c" ]} ] 0).1.1
  ≡ₚ sent <$> [ ({[ "outbreak" := FStr "O1"; "id" := FStr "a" ]} : obj);
                {[ "outbreak" := FStr "O2"; "id" := FStr "b" ]};
                {[ "outbreak" := FStr "O1"; "id" := FStr "c" ]} ].
Proof.
  refine (proj1 (sendCasesToGoData_complete
           {| login := λ n, (S n, Some "user");
              activateOutbreakForUser := λ _ _ n, (S n, true);
              createOutbreakCase := λ _ _ n, (S n, true) |}
           (forallb id) (λ outbreaks, (map_to_list outbreaks).*1)
           [ {[ "outbreak" := FStr "O1"; "id" := FStr "a" ]};
             {[ "outbreak" := FStr "O2"; "id" := FStr "b" ]};
             {[ "outbreak" := FStr "O1"; "id" := FStr "c" ]} ] 0 _ _)).
  - reflexivity.
  - vm_compute. reflexivity.
Defined.

Lemma sendCasesToGoData_fail_fast_witness :
  ([] : list event) = [] ∧
  (sendCasesToGoData
     {| login := λ n, (S n, Some "user");
        activateOutbreakForUser := λ _ _ n, (S n, false);
        createOutbreakCase := λ _ _ n, (S n, true) |}
     (forallb id) (λ outbreaks, (map_to_list outbreaks).*1)
     [ {[ "outbreak" := FStr "O1"; "id" := FStr "a" ]} ] 0).1.2 = false.
Proof.
  apply (sendCasesToGoData_fail_fast
           {| login := λ n, (S n, Some "user");
              activateOutbreakForUser := λ _ _ n, (S n, false);
              createOutbreakCase := λ _ _ n, (S n, true) |}
           (forallb id) (λ outbreaks, (map_to_list outbreaks).*1)
           [ {[ "outbreak" := FStr "O1"; "id" := FStr "a" ]} ] 0
           [ Issued Login; Settled Login true;
             Issued (ActivateOutbreakForUser "user" "O1") ]
           (ActivateOutbreakForUser "user" "O1") []).
  vm_compute. reflexivity.
Defined.

Lemma sendCasesToGoData_activations_witness :
  (login {| login := λ n, (S n, Some "user");
            activateOutbreakForUser := λ _ _ n, (S n, true);
            createOutbreakCase := λ _ _ n, (S n, true) |} 0).2 = Some "user" ∧
  "O1" ∈ (map_to_list
            (reduceBy (λ case_ : obj, toKey (case_ !! "outbreak"))
               [ ({[ "outbreak" := FStr "O1"; "id" := FStr "a" ]} : obj) ])).*1.
Proof.
  apply (sendCasesToGoData_activations
           {| login := λ n, (S n, Some "user");
              activateOutbreakForUser := λ _ _ n, (S n, true);
              createOutbreakCase := λ _ _ n, (S n, true) |}
           (forallb id) (λ outbreaks, (map_to_list outbreaks).*1)
           [ {[ "outbreak" := FStr "O1"; "id" := FStr "a" ]} ] 0 "user" "O1").
  vm_compute. left.
Defined.

(** ** Loading *)


Lemma resolveAll_fmap {A B} (g : A → option B) (l : list A) :
  resolveAll (g <$> l) = mapM g l.
Proof.
  unfold resolveAll. apply option_eq. intros k.
  by rewrite !mapM_Some, Forall2_fmap_l.
Qed.

Lemma loadTrackedEntityInstances_units dhis2 organisationUnits programID :
  loadTrackedEntityInstances dhis2 organisationUnits programID
  = @concat obj <$> mapM (loadOrganisationUnit dhis2 programID) organisationUnits.
Proof.
  unfold loadTrackedEntityInstances.
  change (map ?f organisationUnits) with (f <$> organisationUnits).
  rewrite resolveAll_fmap.
  by destruct (mapM _ organisationUnits).
Qed.


Lemma loadOrganisationUnit_None dhis2 programID ou :
  loadOrganisationUnit dhis2 programID ou = None ↔
  getTrackedEntityInstances dhis2 (ou_id ou) programID = None ∨
  ∃ insts te0, getTrackedEntityInstances dhis2 (ou_id ou) programID = Some insts ∧
               Some te0 ∈ insts ∧
               getTrackedEntityEvents dhis2 (te0 !! "trackedEntityInstance") = None.
Proof.
  unfold loadOrganisationUnit.
  destruct (getTrackedEntityInstances dhis2 (ou_id ou) programID) as [insts|]; simpl.
  - change (map ?f (omap id insts)) with (f <$> omap id insts).
    rewrite resolveAll_fmap, mapM_None, Exists_exists. split.
    + intros (te0 & Hin & Hnone). right. exists insts, te0. split; [done|].
      apply list_elem_of_omap in Hin as (o & Hin & Ho). simpl in Ho. subst o.
      split; [done|]. by destruct (getTrackedEntityEvents dhis2 _).
    + intros [?|(insts' & te0 & [= <-] & Hin & Hnone)]; [done|].
      exists te0. split; [|by rewrite Hnone].
      apply list_elem_of_omap. by exists (Some te0).
  - split; [by left|done].
Qed.


(** X27: loadTrackedEntityInstances rejects exactly when one of the calls
    it makes is rejected: the listing of the instances of one of the
    organisation units, or the events of one of the non-null instances
    listed. *)
Theorem loadTrackedEntityInstances_rejects_iff dhis2 organisationUnits programID :
  loadTrackedEntityInstances dhis2 organisationUnits programID = None ↔
  ∃ ou, ou ∈ organisationUnits ∧
    (getTrackedEntityInstances dhis2 (ou_id ou) programID = None ∨
     ∃ insts te0, getTrackedEntityInstances dhis2 (ou_id ou) programID = Some insts ∧
                  Some te0 ∈ insts ∧
                  getTrackedEntityEvents dhis2 (te0 !! "trackedEntityInstance") = None).
Proof.
  rewrite loadTrackedEntityInstances_units, fmap_None, mapM_None, Exists_exists.
  split; intros (ou & Hin & H); exists ou; (split; [done|]);
    by apply loadOrganisationUnit_None.
Qed.




